(** * homebrew.py: a shallow embedding and its verified properties

    The development follows [etc/scripts/homebrew.py]: the Python string and
    path primitives the script relies on, the [Download], [BinaryPackage] and
    [Repository] classes, the dependency walk, the formula scanner, the file
    installer, the Mach-O path rewriter and the installation validator.

    Python values are modelled as follows: [str] as [string] (a sequence of
    bytes), [None]-able arguments as [option], a [dict] used as a map as
    [gmap], a [dict] that is iterated as an association list in insertion
    order, exceptions as the [Err] side of [result]. *)

From Stdlib Require Import Ascii String DecimalString.
From stdpp Require Import gmap strings list fin_maps relations.

(** ** Exceptions and the error monad *)

(** The exceptions the modelled code can raise.  [Exception] is the generic
    Python exception the script raises with a message; [RecursionError] is
    what the interpreter raises when the recursion bound is exhausted. *)
Inductive exn : Type :=
  | KeyError (key : string)
  | AssertionError (msg : string)
  | AttributeError (msg : string)
  | TypeError (msg : string)
  | OSError (msg : string)
  | RecursionError
  | Exception (msg : string).

Inductive result (A : Type) : Type :=
  | Ok (a : A)
  | Err (e : exn).
Arguments Ok {A} a.
Arguments Err {A} e.

Global Instance result_ret : MRet result := @Ok.

Global Instance result_bind : MBind result := λ A B k r,
  match r with
  | Ok a => k a
  | Err e => Err e
  end.

Global Instance result_fmap : FMap result := λ A B f r,
  match r with
  | Ok a => Ok (f a)
  | Err e => Err e
  end.

Definition is_Ok {A} (r : result A) : Prop := ∃ a, r = Ok a.
Definition is_Err {A} (r : result A) : Prop := ∃ e, r = Err e.

(** A missing key of a JSON object or keyword argument. *)
Definition getitem {A} (key : string) (o : option A) : result A :=
  match o with
  | Some a => Ok a
  | None => Err (KeyError key)
  end.

(** ** Python string primitives *)

Module Py.

(** [s.startswith(pre)] *)
Fixpoint startswith (pre s : string) : bool :=
  match pre, s with
  | "", _ => true
  | String _ _, "" => false
  | String a pre', String b s' =>
      if decide (a = b) then startswith pre' s' else false
  end.

(** [s.endswith(suf)] *)
Definition endswith (suf s : string) : bool :=
  startswith (String.rev suf) (String.rev s).

(** [s.endswith((suf1, suf2, ...))] *)
Definition endswith_any (sufs : list string) (s : string) : bool :=
  existsb (fun suf => endswith suf s) sufs.

(** [s[n:]] *)
Fixpoint drop (n : nat) (s : string) : string :=
  match n, s with
  | 0, _ => s
  | S _, "" => ""
  | S n', String _ s' => drop n' s'
  end.

(** [sub in s] *)
Fixpoint contains (sub s : string) : bool :=
  startswith sub s ||
  match s with
  | "" => false
  | String _ s' => contains sub s'
  end.

(** The split of [s] around the first occurrence of [sep], if any. *)
Fixpoint find_first (sep s : string) : option (string * string) :=
  if startswith sep s then Some ("", drop (String.length sep) s)
  else match s with
       | "" => None
       | String c s' =>
           match find_first sep s' with
           | Some (h, t) => Some (String c h, t)
           | None => None
           end
       end.

(** The split of [s] around the last occurrence of [sep], if any. *)
Fixpoint find_last (sep s : string) : option (string * string) :=
  match s with
  | "" => if startswith sep "" then Some ("", "") else None
  | String c s' =>
      match find_last sep s' with
      | Some (h, t) => Some (String c h, t)
      | None =>
          if startswith sep s then Some ("", drop (String.length sep) s)
          else None
      end
  end.

(** [s.partition(sep)], for the non-empty separators the script uses. *)
Definition partition (sep s : string) : string * string * string :=
  match find_first sep s with
  | Some (h, t) => (h, sep, t)
  | None => (s, "", "")
  end.

(** [s.rpartition(sep)], for the non-empty separators the script uses. *)
Definition rpartition (sep s : string) : string * string * string :=
  match find_last sep s with
  | Some (h, t) => (h, sep, t)
  | None => ("", "", s)
  end.

Definition mem_char (c : ascii) (chars : string) : bool :=
  bool_decide (c ∈ list_ascii_of_string chars).

(** [s.lstrip(chars)] *)
Fixpoint lstrip (chars s : string) : string :=
  match s with
  | "" => ""
  | String c s' => if mem_char c chars then lstrip chars s' else s
  end.

(** [s.rstrip(chars)] *)
Definition rstrip (chars s : string) : string :=
  String.rev (lstrip chars (String.rev s)).

(** [s.strip(chars)] *)
Definition strip (chars s : string) : string :=
  rstrip chars (lstrip chars s).

(** The one-byte characters for which [str.isspace] holds: tab, line feed,
    vertical tab, form feed, carriage return, the separators 28 to 31 and
    the space. *)
Definition whitespace : string :=
  string_of_list_ascii
    (ascii_of_nat <$> [9; 10; 11; 12; 13; 28; 29; 30; 31; 32]).

(** [s.strip()] *)
Definition strip_ws (s : string) : string := strip whitespace s.

(** [sep.join(parts)] *)
Fixpoint join (sep : string) (parts : list string) : string :=
  match parts with
  | [] => ""
  | [p] => p
  | p :: rest => p +:+ sep +:+ join sep rest
  end.

(** Truthiness of an optional string: [None] and [''] are falsy. *)
Definition truthy (o : option string) : bool :=
  match o with
  | None | Some "" => false
  | Some _ => true
  end.

(** [a or b] on optional strings. *)
Definition or_ (a b : option string) : option string :=
  if truthy a then a else b.

(** [template.format(arg)] for a template with one [{}] field and no other
    brace, as the formula URL templates of the script are. *)
Definition format1 (template arg : string) : string :=
  match find_first "{}" template with
  | Some (h, t) => h +:+ arg +:+ t
  | None => template
  end.

(** [str(n)] for an [int]. *)
Definition str_of_int (n : Z) : string :=
  NilZero.string_of_int (Z.to_int n).

End Py.

(** ** posixpath *)

Module os_path.

(** [os.path.join(a, b)] *)
Definition join (a b : string) : string :=
  if Py.startswith "/" b then b
  else if bool_decide (a = "") || Py.endswith "/" a then a +:+ b
  else a +:+ "/" +:+ b.

(** [os.path.basename(p)]: what follows the last separator. *)
Definition basename (p : string) : string :=
  match Py.find_last "/" p with
  | Some (_, t) => t
  | None => p
  end.

(** [os.path.dirname(p)]: the part up to the last separator, without its
    trailing separators unless it consists of separators only. *)
Definition dirname (p : string) : string :=
  match Py.find_last "/" p with
  | Some (h, _) =>
      let head := h +:+ "/" in
      if bool_decide (Py.lstrip "/" head = "") then head
      else Py.rstrip "/" head
  | None => ""
  end.

End os_path.

(** The double-quote and line-feed characters, as strings. *)
Definition dquote : string := String (ascii_of_nat 34) "".
Definition newline : string := String (ascii_of_nat 10) "".

(** ** class Download *)

Record Download : Type := mkDownload {
  url : string;
  file_name : string;
  sha256 : option string;
  fetched_location : option string;
}.

(** [Download.__init__(url, file_name=None, sha256=None)] *)
Definition Download_init (url0 : string) (file_name0 sha : option string)
    : Download :=
  let url1 := Py.strip "/" url0 in
  let file_name1 :=
    match file_name0 with
    | Some f => if bool_decide (f = "") then (Py.rpartition "/" url1).2 else f
    | None => (Py.rpartition "/" url1).2
    end in
  {| url := url1; file_name := file_name1; sha256 := sha;
     fetched_location := None |}.

(** [Download.from_index(url, tag=None, revision=None, sha256=None)]; the
    value [Ok None] is the bare [return] of the source. *)
Definition Download_from_index (url0 : string) (tag revision sha : option string)
    : result (option Download) :=
  let url1 := Py.strip "/" url0 in
  if negb (Py.truthy tag) && negb (Py.truthy revision) then
    let file_name1 := (Py.rpartition "/" url1).2 in
    Ok (Some (Download_init url1 (Some file_name1) sha))
  else
    (* a github URL *)
    if negb (Py.startswith "https://github.com" url1) then
      Err (AssertionError ("Invalid " +:+ url1))
    else if negb (Py.truthy tag) && negb (Py.truthy revision) then
      Ok None
    else
      let url2 :=
        if Py.endswith ".git" url1 then (Py.rpartition ".git" url1).1.1
        else url1 in
      (* prefer revision over tag *)
      let commitish := default "" (Py.or_ revision tag) in
      let download_url := url2 +:+ "/archive/" +:+ commitish +:+ ".tar.gz" in
      let ghrepo_name := (Py.rpartition "/" url2).2 in
      let file_name1 := ghrepo_name +:+ "-" +:+ commitish +:+ ".tar.gz" in
      Ok (Some (Download_init download_url (Some file_name1) sha)).

(** ** patchmacho: the load-command path rewriter *)

Definition HOMEBREW_PREFIX : string := "@@HOMEBREW_PREFIX@@".

(** [get_updated_loader_path(loader_path)], the [changefunc] handed to
    [MachO.rewriteLoadCommands]; [None] is the implicit return of the source
    when the path holds no placeholder. *)
Definition get_updated_loader_path (loader_path : string) : option string :=
  if Py.contains HOMEBREW_PREFIX loader_path then
    (* make this @loader_path-relative *)
    let dylib_name := (Py.rpartition "/" loader_path).2 in
    Some ("@loader_path/" +:+ dylib_name)
  else None.

(** What [rewriteLoadCommands] of macholib does with one load-command path:
    it calls [changefunc] and rewrites the path only when the answer is not
    [None]. *)
Definition rewrite_load_command (changefunc : string → option string)
    (path : string) : string :=
  default path (changefunc path).

Definition patchmacho_path (path : string) : string :=
  rewrite_load_command get_updated_loader_path path.

(** ** class BinaryPackage *)

Record BinaryPackage : Type := mkBinaryPackage {
  name : string;
  version : string;
  revision : string;
  (* mapping of {osarch: Download} *)
  download_urls : gmap string Download;
  (* direct fetch of the ruby code of a formula *)
  formula_download_url : Download;
  (* list of Download: archive, patches, etc; an element may be None *)
  source_download_urls : list (option Download);
  (* list of (name, version requirement) *)
  depends : list (string * string);
  fullversion : string;
  fqname : string;
}.

(** [BinaryPackage.__init__] *)
Definition BinaryPackage_init (name0 version0 revision0 : string)
    (download_urls0 : gmap string Download) (formula_download_url0 : Download)
    (source_download_urls0 : list (option Download))
    (depends0 : list (string * string)) : BinaryPackage :=
  let fullversion0 :=
    if bool_decide (revision0 = "") then version0
    else version0 +:+ "_" +:+ revision0 in
  {| name := name0; version := version0; revision := revision0;
     download_urls := download_urls0;
     formula_download_url := formula_download_url0;
     source_download_urls := source_download_urls0;
     depends := depends0;
     fullversion := fullversion0;
     fqname := name0 +:+ "@" +:+ fullversion0 |}.

(** [BinaryPackage.__repr__] *)
Definition BinaryPackage_repr (p : BinaryPackage) : string :=
  "BinaryPackage(" +:+ fqname p +:+ ")".

(** *** Index records *)

(** One entry of [item.urls.stable]: the keyword arguments of
    [Download.from_index]. *)
Record SourceUrl : Type := mkSourceUrl {
  su_url : option string;
  su_tag : option string;
  su_revision : option string;
  su_sha256 : option string;
}.

(** One entry of [item.bottle.stable.files]. *)
Record BottleFile : Type := mkBottleFile {
  bf_url : option string;
  bf_sha256 : option string;
}.

(** One record of the JSON index; a field that is [None] is a key the record
    lacks, and reading it raises [KeyError]. *)
Record IndexItem : Type := mkIndexItem {
  item_name : option string;
  item_versions_stable : option string;
  item_revision : option Z;
  item_urls_stable : option SourceUrl;
  item_bottle_files : option (list (string * BottleFile));
  item_dependencies : option (list string);
}.

(** ** class Repository *)

Record Repository : Type := mkRepository {
  repo_name : string;
  db_url : string;
  formula_base_url : string;
  (* a collection of {binary_package_name: BinaryPackage object} *)
  packages : gmap string BinaryPackage;
}.

(** [Repository.__init__] *)
Definition Repository_init (name0 db_url0 formula_base_url0 : string)
    : Repository :=
  {| repo_name := name0; db_url := db_url0;
     formula_base_url := formula_base_url0; packages := ∅ |}.

(** The loop of [BinaryPackage.from_index] over the bottle files. *)
Fixpoint bottle_downloads (repo_name0 : string)
    (files : list (string * BottleFile)) (download_urls0 : gmap string Download)
    : result (gmap string Download) :=
  match files with
  | [] => Ok download_urls0
  | (osarch, durl) :: rest =>
      durl_url ← getitem "url" (bf_url durl);
      if negb (Py.contains repo_name0 durl_url) then
        (* in linuxbrew, we have incorrect URLS for homebrew packages *)
        bottle_downloads repo_name0 rest download_urls0
      else
        durl_sha ← getitem "sha256" (bf_sha256 durl);
        let archdu := Download_init durl_url None (Some durl_sha) in
        bottle_downloads repo_name0 rest (<[osarch := archdu]> download_urls0)
  end.

(** The loop of [BinaryPackage.from_index] over the dependencies. *)
Definition parse_depends (dependencies : list string) : list (string * string) :=
  (λ dep, let '(dname, _, dversion) := Py.partition "@" dep in
          (dname, dversion)) <$> dependencies.

(** [BinaryPackage.from_index(item, repo)] *)
Definition BinaryPackage_from_index (item : IndexItem) (repo : Repository)
    : result BinaryPackage :=
  name0 ← getitem "name" (item_name item);
  version0 ← getitem "versions" (item_versions_stable item);
  revision0 ← getitem "revision" (item_revision item);
  let revision1 :=
    if bool_decide (revision0 = 0%Z) then "" else Py.str_of_int revision0 in
  let formula_download_url0 :=
    Download_init (Py.format1 (formula_base_url repo) name0) None None in
  source_url ← getitem "urls" (item_urls_stable item);
  source_url_url ←
    match su_url source_url with
    | Some u => Ok u
    | None =>
        Err (TypeError "from_index() missing 1 required positional argument")
    end;
  sdu ← Download_from_index source_url_url (su_tag source_url)
          (su_revision source_url) (su_sha256 source_url);
  let source_download_urls0 := [sdu] in
  files ← getitem "bottle" (item_bottle_files item);
  download_urls0 ← bottle_downloads (repo_name repo) files ∅;
  dependencies ← getitem "dependencies" (item_dependencies item);
  let depends0 := parse_depends dependencies in
  Ok (BinaryPackage_init name0 version0 revision1 download_urls0
        formula_download_url0 source_download_urls0 depends0).

(** *** The outside world of [update_packages_index] *)

(** One call of [shared_utils.fetch_file]. *)
Record FetchCall : Type := mkFetchCall {
  fc_url : string;
  fc_dir_location : string;
  fc_file_name : string;
  fc_force : bool;
}.

(** What the network serves and what has been fetched so far.  [served u] is
    the parsed JSON document behind [u]; [None] stands for a failed fetch or a
    document that [json.load] rejects. *)
Record World : Type := mkWorld {
  served : string → option (list IndexItem);
  fetched : list FetchCall;
}.

(** [shared_utils.fetch_file] followed by [json.load] of the fetched file. *)
Definition fetch_index (call : FetchCall) (w : World)
    : result (list IndexItem) * World :=
  let w' := {| served := served w; fetched := fetched w ++ [call] |} in
  match served w (fc_url call) with
  | Some items => (Ok items, w')
  | None => (Err (OSError ("cannot load " +:+ fc_url call)), w')
  end.

(** The loop of [update_packages_index] over the index records: a record
    whose parsing raises is skipped. *)
Fixpoint index_items (repo : Repository) (items : list IndexItem)
    (packages0 : gmap string BinaryPackage) : gmap string BinaryPackage :=
  match items with
  | [] => packages0
  | item :: rest =>
      match BinaryPackage_from_index item repo with
      | Ok binary => index_items repo rest (<[name binary := binary]> packages0)
      | Err _ => index_items repo rest packages0
      end
  end.

Definition set_packages (self : Repository)
    (packages0 : gmap string BinaryPackage) : Repository :=
  {| repo_name := repo_name self; db_url := db_url self;
     formula_base_url := formula_base_url self; packages := packages0 |}.

(** [Repository.update_packages_index(cache_dir)]: the returned mapping, the
    repository after the call and the world after the call. *)
Definition update_packages_index (self : Repository) (cache_dir : string)
    (w : World) : result (gmap string BinaryPackage) * Repository * World :=
  if bool_decide (packages self ≠ ∅) then
    (Ok (packages self), self, w)
  else
    let self1 := set_packages self ∅ in
    let call :=
      {| fc_url := db_url self; fc_dir_location := cache_dir;
         fc_file_name := "formula-" +:+ repo_name self +:+ ".json";
         fc_force := true |} in
    match fetch_index call w with
    | (Ok items, w') =>
        let packages1 := index_items self1 items ∅ in
        (Ok packages1, set_packages self packages1, w')
    | (Err e, w') => (Err e, self1, w')
    end.

(** ** The dependency walk *)

(** The lookup of [get_all_dependents]: [binary_packages[dep_name]] and, on a
    [KeyError], [binary_packages[dep_name + '-git']]. *)
Definition lookup_dep (binary_packages : gmap string BinaryPackage)
    (dep_name : string) : result BinaryPackage :=
  match binary_packages !! dep_name with
  | Some depp => Ok depp
  | None => getitem (dep_name +:+ "-git") (binary_packages !! (dep_name +:+ "-git"))
  end.

(** The body of [get_all_dependents]: the loop over [self.depends], with the
    recursive call on a dependency as [recur].  The generator is consumed to
    its end by its only caller, so it is modelled by the list of what it
    yields, or by the exception that interrupts it. *)
Fixpoint walk_depends (recur : BinaryPackage → result (list BinaryPackage))
    (binary_packages : gmap string BinaryPackage) (ignore_deps : list string)
    (deps : list (string * string)) : result (list BinaryPackage) :=
  match deps with
  | [] => Ok []
  | (dep_name, _dep_req) :: rest =>
      if bool_decide (dep_name ∈ ignore_deps) then
        walk_depends recur binary_packages ignore_deps rest
      else
        depp ← lookup_dep binary_packages dep_name;
        subdeps ← recur depp;
        others ← walk_depends recur binary_packages ignore_deps rest;
        Ok (depp :: subdeps ++ others)
  end.

(** [BinaryPackage.get_all_dependents(binary_packages, ignore_deps)].  [depth]
    bounds the nesting of the recursive calls below this one, as the recursion
    limit of the interpreter does: a call that would nest deeper raises
    [RecursionError]. *)
Fixpoint get_all_dependents (depth : nat)
    (binary_packages : gmap string BinaryPackage) (ignore_deps : list string)
    (self : BinaryPackage) : result (list BinaryPackage) :=
  match depth with
  | 0 =>
      walk_depends (λ _, Err RecursionError)
        binary_packages ignore_deps (depends self)
  | S depth' =>
      walk_depends (get_all_dependents depth' binary_packages ignore_deps)
        binary_packages ignore_deps (depends self)
  end.

(** The loop of [get_unique_dependents]: [unique] is the insertion-ordered
    dict of the source, as an association list. *)
Fixpoint unique_by_name (deps : list BinaryPackage)
    (unique : list (string * BinaryPackage)) : list (string * BinaryPackage) :=
  match deps with
  | [] => unique
  | dep :: rest =>
      if bool_decide (name dep ∈ unique.*1) then unique_by_name rest unique
      else unique_by_name rest (unique ++ [(name dep, dep)])
  end.

(** [BinaryPackage.get_unique_dependents(binary_packages, ignore_deps)] *)
Definition get_unique_dependents (depth : nat)
    (binary_packages : gmap string BinaryPackage) (ignore_deps : list string)
    (self : BinaryPackage) : result (list BinaryPackage) :=
  all ← get_all_dependents depth binary_packages ignore_deps self;
  Ok (unique_by_name all []).*2.

(** ** The formula scanner *)

Definition good_extensions : list string :=
  [".tar.gz"; ".tar.xz"; ".tar.bz2"; ".zip"].

(** [get_formula_source_urls(location)], over the lines of the file at
    [location]. *)
Fixpoint get_formula_source_urls (formula : list string) : list string :=
  match formula with
  | [] => []
  | line :: rest =>
      let line := Py.strip_ws line in
      if Py.startswith "url " line then
        let url0 := (Py.partition ("url " +:+ dquote) line).2 in
        let url1 := Py.strip (" " +:+ dquote) url0 in
        if Py.endswith_any good_extensions url1 then
          url1 :: get_formula_source_urls rest
        else get_formula_source_urls rest
      else get_formula_source_urls rest
  end.

(** [set(d.url for d in self.source_download_urls)]: reading [url] off a
    [None] element raises [AttributeError]. *)
Fixpoint known_urls_of (downloads : list (option Download))
    : result (list string) :=
  match downloads with
  | [] => Ok []
  | Some d :: rest => urls ← known_urls_of rest; Ok (url d :: urls)
  | None :: rest =>
      Err (AttributeError "'NoneType' object has no attribute 'url'")
  end.

Definition set_source_download_urls (self : BinaryPackage)
    (downloads : list (option Download)) : BinaryPackage :=
  {| name := name self; version := version self; revision := revision self;
     download_urls := download_urls self;
     formula_download_url := formula_download_url self;
     source_download_urls := downloads;
     depends := depends self;
     fullversion := fullversion self; fqname := fqname self |}.

(** The loop of [add_formula_source_download_urls]: [known_urls] is computed
    once, before the loop, and the loop never adds to it.  A [Download]
    object is always truthy, so the [continue] of the source is never taken. *)
Fixpoint add_urls (known_urls : list string) (urls : list string)
    (downloads : list (option Download)) : list (option Download) :=
  match urls with
  | [] => downloads
  | url0 :: rest =>
      if bool_decide (url0 ∉ known_urls) then
        let dnl := Download_init url0 None None in
        add_urls known_urls rest (downloads ++ [Some dnl])
      else add_urls known_urls rest downloads
  end.

(** [BinaryPackage.add_formula_source_download_urls(location)], over the
    lines of the formula file at [location]; the package after the call. *)
Definition add_formula_source_download_urls (self : BinaryPackage)
    (formula : list string) : result BinaryPackage :=
  known_urls ← known_urls_of (source_download_urls self);
  Ok (set_source_download_urls self
        (add_urls known_urls (get_formula_source_urls formula)
           (source_download_urls self))).

(** ** The file system *)

(** The file-system primitives the script calls, over a state [FS] of the
    file system.  The script calls [os.listdir] only on a path that ends with
    the separator and for which [os.path.exists] just answered true, that is
    on a directory: the listing is taken as total.  The primitives that write
    may raise. *)
Class FileSystem (FS : Type) : Type := {
  os_path_exists : FS → string → bool;
  os_path_isdir : FS → string → bool;
  os_listdir : FS → string → list string;
  (* os.makedirs(path, exist_ok=True) *)
  os_makedirs : string → FS → result FS;
  (* distutils.dir_util.copy_tree(src, dst) *)
  copy_tree : string → string → FS → result FS;
  (* shutil.copy2(src, dst) *)
  shutil_copy2 : string → string → FS → result FS;
}.

(** ** install_files *)

(* map of src to dst *)
Definition default_copies : list (string * string) :=
  [ (* base *)
    ("lib", "lib"); ("bin", "bin");
    (* doc and licenses *)
    ("share", "licenses") ].

Section install.
Context {FS : Type} `{!FileSystem FS}.

(** The body of the loop of [install_files] for one [(src, dst)] pair. *)
Definition install_pair (extracted_dir install_dir : string)
    (entry : string * string) (fs : FS) : result FS :=
  let '(src0, dst0) := entry in
  let isdir := Py.endswith "/" dst0 in
  let src := os_path.join extracted_dir src0 in
  let dst := os_path.join install_dir dst0 in
  if os_path_exists fs src then
    if os_path_isdir fs src then
      copy_tree src dst fs
    else
      let parent := os_path.dirname dst in
      fs1 ← os_makedirs parent fs;
      fs2 ← (if isdir then os_makedirs dst fs1 else Ok fs1);
      shutil_copy2 src dst fs2
  else Ok fs.

(** The loop of [install_files] over [copies.items()]. *)
Fixpoint install_pairs (extracted_dir install_dir : string)
    (copies : list (string * string)) (fs : FS) : result FS :=
  match copies with
  | [] => Ok fs
  | entry :: rest =>
      fs1 ← install_pair extracted_dir install_dir entry fs;
      install_pairs extracted_dir install_dir rest fs1
  end.

(** [install_files(extracted_dir, install_dir, package_name,
    package_fullversion, copies)]; an empty or absent [copies] is replaced
    by [default_copies]. *)
Definition install_files (extracted_dir install_dir : string)
    (package_name package_fullversion : string)
    (copies : option (list (string * string))) (fs : FS) : result FS :=
  let copies1 :=
    match copies with
    | None | Some [] => default_copies
    | Some c => c
    end in
  install_pairs extracted_dir install_dir copies1 fs.

(** ** check_installed_files *)

Definition illegal_copy_msg (src dst : string) : string :=
  "Illegal copy from: " +:+ src +:+ " to " +:+ dst +:+ ".".

Definition not_installed_msg (package : BinaryPackage)
    (missing : list string) : string :=
  "These files were not installed for " +:+ BinaryPackage_repr package
    +:+ ":" +:+ newline +:+ Py.join newline missing.

(** The body of the loop of [check_installed_files] for one [(src, dst)]
    pair: the [missing] list after the iteration, or the exception raised.
    The four tests are those of the source, in its order. *)
Definition check_pair (fs : FS) (install_dir : string)
    (entry : string * string) (missing : list string)
    : result (list string) :=
  let '(src, dst) := entry in
  let src_isdir := Py.endswith "/" src in
  let dst_isdir := Py.endswith "/" dst in
  let dst_loc := os_path.join install_dir dst in
  if dst_isdir && negb src_isdir then
    (* file to dir *)
    let filename := os_path.basename src in
    let dst_loc := os_path.join dst_loc filename in
    if negb (os_path_exists fs dst_loc) then Ok (missing ++ [dst_loc])
    else Ok missing
  else if dst_isdir && src_isdir then
    (* dir to dir *)
    if negb (os_path_exists fs dst_loc) then Ok (missing ++ [dst_loc])
    else
      if bool_decide (os_listdir fs dst_loc = []) then
        Ok (missing ++ [dst_loc])
      else Ok missing
  else if negb dst_isdir then
    (* file to file *)
    if negb (os_path_exists fs dst_loc) then Ok (missing ++ [dst_loc])
    else Ok missing
  else if src_isdir && negb dst_isdir then
    (* dir to file: illegal *)
    Err (Exception (illegal_copy_msg src dst))
  else Ok missing.

(** The loop of [check_installed_files] over [copies.items()]. *)
Fixpoint check_pairs (fs : FS) (install_dir : string)
    (copies : list (string * string)) (missing : list string)
    : result (list string) :=
  match copies with
  | [] => Ok missing
  | entry :: rest =>
      missing1 ← check_pair fs install_dir entry missing;
      check_pairs fs install_dir rest missing1
  end.

(** [check_installed_files(install_dir, copies, package)] *)
Definition check_installed_files (fs : FS) (install_dir : string)
    (copies : list (string * string)) (package : BinaryPackage)
    : result unit :=
  missing ← check_pairs fs install_dir copies [];
  match missing with
  | [] => Ok ()
  | _ => Err (Exception (not_installed_msg package missing))
  end.

End install.

(** * The notions of the specification *)

(** The final segment of a path, in the words of the specification: what is
    left of the path once everything up to its last separator is removed. *)
Fixpoint last_segment (p : string) : string :=
  match p with
  | "" => ""
  | String c p' =>
      if Py.contains "/" p' then last_segment p'
      else if decide (c = "/"%char) then p' else p
  end.

(** The shapes of a copy-plan entry, told apart by the trailing separator of
    its source and of its destination. *)
Inductive CopyShape : Type :=
  | FileToFile
  | FileToDir
  | DirToDir
  | DirToFile.

Definition classify (src dst : string) : CopyShape :=
  match Py.endswith "/" src, Py.endswith "/" dst with
  | false, false => FileToFile
  | false, true => FileToDir
  | true, true => DirToDir
  | true, false => DirToFile
  end.

(** A plan entry of one of the three legal shapes. *)
Definition legal_entry (entry : string * string) : Prop :=
  classify entry.1 entry.2 ≠ DirToFile.

Section expectations.
Context {FS : Type} `{!FileSystem FS}.

(** The expected artifact of a plan entry when its expectation is unmet:
    file to file, the destination file must exist; file to directory, the
    file named as the source inside the destination directory must exist;
    directory to directory, the destination directory must exist and be
    non-empty.  The illegal shape carries no expectation. *)
Definition unmet_expectation (fs : FS) (install_dir : string)
    (entry : string * string) : option string :=
  let '(src, dst) := entry in
  let dst_dir := os_path.join install_dir dst in
  match classify src dst with
  | FileToFile =>
      if os_path_exists fs dst_dir then None else Some dst_dir
  | FileToDir =>
      let artifact := os_path.join dst_dir (os_path.basename src) in
      if os_path_exists fs artifact then None else Some artifact
  | DirToDir =>
      if os_path_exists fs dst_dir
           && negb (bool_decide (os_listdir fs dst_dir = []))
      then None else Some dst_dir
  | DirToFile => None
  end.

(** Every missing path of a plan, in plan order. *)
Definition missing_artifacts (fs : FS) (install_dir : string)
    (copies : list (string * string)) : list string :=
  omap (unmet_expectation fs install_dir) copies.

End expectations.

(** The calls of [update_packages_index] that follow a first one: the value
    each returns, and the repository and the world after the last. *)
Fixpoint update_packages_index_again (cache_dirs : list string)
    (self : Repository) (w : World)
    : list (result (gmap string BinaryPackage)) * Repository * World :=
  match cache_dirs with
  | [] => ([], self, w)
  | cache_dir :: rest =>
      let '(r, self1, w1) := update_packages_index self cache_dir w in
      let '(rs, self2, w2) := update_packages_index_again rest self1 w1 in
      (r :: rs, self2, w2)
  end.

(** An index whose keys are the names of its packages, as the index that
    [update_packages_index] builds is. *)
Definition wf_index (binary_packages : gmap string BinaryPackage) : Prop :=
  ∀ key p, binary_packages !! key = Some p → name p = key.

(** ** The dependency graph of an index *)

Section graph.
Context (binary_packages : gmap string BinaryPackage) (ignore_deps : list string).

(** [p] is a package of the index. *)
Definition in_index (p : BinaryPackage) : Prop :=
  ∃ key, binary_packages !! key = Some p.

(** A non-ignored dependency edge: [p] declares a dependency whose name is
    not ignored and resolves, by its exact name or else by that name
    followed by [-git], to [q]. *)
Definition dep_edge (p q : BinaryPackage) : Prop :=
  ∃ dep_name dep_req,
    (dep_name, dep_req) ∈ depends p ∧ (dep_name ∉ ignore_deps)
    ∧ lookup_dep binary_packages dep_name = Ok q.

(** [q] is transitively reachable from [p]. *)
Definition reachable (p q : BinaryPackage) : Prop := tc dep_edge p q.

(** No package reaches itself. *)
Definition acyclic : Prop := ∀ p, ¬ reachable p p.

(** A cycle can be reached from [root]. *)
Definition cyclic_from (root : BinaryPackage) : Prop :=
  ∃ q, rtc dep_edge root q ∧ reachable q q.

(** Every non-ignored dependency name met from [root] on resolves. *)
Definition closed_from (root : BinaryPackage) : Prop :=
  ∀ p dep_name dep_req,
    rtc dep_edge root p → (dep_name, dep_req) ∈ depends p →
    dep_name ∉ ignore_deps → is_Ok (lookup_dep binary_packages dep_name).

(** The depth-first pre-order of the packages below a list of declared
    dependencies: an ignored name is skipped; any other name contributes its
    package, then the pre-order of the dependencies of that package, before
    the next sibling is looked at. *)
Inductive preorder : list (string * string) → list BinaryPackage → Prop :=
  | preorder_nil : preorder [] []
  | preorder_ignored dep_name dep_req rest others :
      dep_name ∈ ignore_deps →
      preorder rest others →
      preorder ((dep_name, dep_req) :: rest) others
  | preorder_visit dep_name dep_req rest q below others :
      dep_name ∉ ignore_deps →
      lookup_dep binary_packages dep_name = Ok q →
      preorder (depends q) below →
      preorder rest others →
      preorder ((dep_name, dep_req) :: rest) (q :: below ++ others).

End graph.

(** A list without the later occurrences of a package name: each package is
    kept where its name is met first. *)
Fixpoint first_by_name (l : list BinaryPackage) : list BinaryPackage :=
  match l with
  | [] => []
  | p :: rest => p :: filter (λ q, name q ≠ name p) (first_by_name rest)
  end.

(** ** Checkable conditions on an index *)

(** The dependency [dep] is ignored or resolves. *)
Definition dep_resolves (binary_packages : gmap string BinaryPackage)
    (ignore_deps : list string) (dep : string * string) : bool :=
  bool_decide (dep.1 ∈ ignore_deps) ||
  match lookup_dep binary_packages dep.1 with
  | Ok _ => true
  | Err _ => false
  end.

(** Every dependency of [root] and of every package of the index is ignored
    or resolves. *)
Definition all_resolve (binary_packages : gmap string BinaryPackage)
    (ignore_deps : list string) (root : BinaryPackage) : bool :=
  forallb (λ p, forallb (dep_resolves binary_packages ignore_deps) (depends p))
    (root :: (map_to_list binary_packages).*2).

(** The keys of the index are the names of its packages. *)
Definition keyed_by_name (binary_packages : gmap string BinaryPackage) : bool :=
  forallb (λ entry : string * BinaryPackage,
             bool_decide (name entry.2 = entry.1))
    (map_to_list binary_packages).

(** The dependency [dep] of [p] is ignored, or does not resolve, or resolves
    to a package of a smaller rank than [p]. *)
Definition dep_descends (binary_packages : gmap string BinaryPackage)
    (ignore_deps : list string) (rank : string → nat) (p : BinaryPackage)
    (dep : string * string) : bool :=
  bool_decide (dep.1 ∈ ignore_deps) ||
  match lookup_dep binary_packages dep.1 with
  | Ok q => bool_decide (rank (name q) < rank (name p))
  | Err _ => true
  end.

(** [rank] decreases along every non-ignored dependency edge out of a
    package of the index. *)
Definition rank_decreases (binary_packages : gmap string BinaryPackage)
    (ignore_deps : list string) (rank : string → nat) : bool :=
  forallb (λ p, forallb (dep_descends binary_packages ignore_deps rank p)
                  (depends p))
    (map_to_list binary_packages).*2.

(** * Examples: a small file system, indexes and packages *)

(** The files that exist and the directories that exist, each with its
    entries. *)
Record MemFS : Type := mkMemFS {
  mem_files : list string;
  mem_dirs : list (string * list string);
}.

Definition mem_lookup_dir (fs : MemFS) (p : string) : option (list string) :=
  (λ found, found.2.2) <$> list_find (λ d, d.1 = p) (mem_dirs fs).

Definition mem_add_file (p : string) (fs : MemFS) : MemFS :=
  {| mem_files := p :: mem_files fs; mem_dirs := mem_dirs fs |}.

Definition mem_add_dir (p : string) (fs : MemFS) : MemFS :=
  {| mem_files := mem_files fs; mem_dirs := (p, []) :: mem_dirs fs |}.

Global Instance MemFS_FileSystem : FileSystem MemFS := {|
  os_path_exists fs p :=
    bool_decide (p ∈ mem_files fs) || bool_decide (p ∈ (mem_dirs fs).*1);
  os_path_isdir fs p := bool_decide (p ∈ (mem_dirs fs).*1);
  os_listdir fs p := default [] (mem_lookup_dir fs p);
  os_makedirs p fs := Ok (mem_add_dir p fs);
  copy_tree src dst fs := Ok (mem_add_dir dst fs);
  shutil_copy2 src dst fs := Ok (mem_add_file dst fs);
|}.

(** An install directory that holds [lib/] with one library and nothing
    else. *)
Definition example_fs : MemFS :=
  {| mem_files := ["inst/lib/libz.so"];
     mem_dirs := [("inst/lib/", ["libz.so"])] |}.

Definition example_package : BinaryPackage :=
  BinaryPackage_init "xz" "5.2.5" "" ∅
    (Download_init "https://example.org/xz.rb" None None)
    [Some (Download_init "https://example.org/xz-5.2.5.tar.gz" None None)] [].

(** A formula line that declares [u] as a URL. *)
Definition url_line (u : string) : string :=
  "  url " +:+ dquote +:+ u +:+ dquote.

(** An index record of a package named [name0] with the dependencies
    [dependencies], as the linuxbrew index serves them. *)
Definition example_item (name0 : string) (dependencies : list string)
    : IndexItem :=
  {| item_name := Some name0;
     item_versions_stable := Some "1.0";
     item_revision := Some 0%Z;
     item_urls_stable :=
       Some {| su_url := Some ("https://example.org/" +:+ name0 +:+ ".tar.gz");
               su_tag := None; su_revision := None; su_sha256 := None |};
     item_bottle_files :=
       Some [("x86_64_linux",
              {| bf_url := Some ("https://linuxbrew.bintray.com/bottles/"
                                 +:+ name0 +:+ ".tar.gz");
                 bf_sha256 := Some "0123" |})];
     item_dependencies := Some dependencies |}.

Definition example_repository : Repository :=
  Repository_init "linuxbrew"
    "https://formulae.brew.sh/api/formula-linux.json"
    "https://raw.githubusercontent.com/Homebrew/linuxbrew-core/master/Formula/{}.rb".

(** A world that serves an index of three packages: [A] depends on [B] and
    [B] on [C]. *)
Definition example_items : list IndexItem :=
  [example_item "A" ["B"]; example_item "B" ["C"]; example_item "C" []].

Definition example_world : World :=
  {| served u :=
       if bool_decide (u = db_url example_repository) then Some example_items
       else None;
     fetched := [] |}.

Definition example_index : gmap string BinaryPackage :=
  index_items example_repository example_items ∅.

Definition example_repository_loaded : Repository :=
  set_packages example_repository example_index.

Definition example_world_loaded : World :=
  {| served := served example_world;
     fetched :=
       [ {| fc_url := db_url example_repository; fc_dir_location := "cache";
            fc_file_name := "formula-linuxbrew.json"; fc_force := true |} ] |}.

(** A package of the given name and dependencies, for examples. *)
Definition example_node (name0 : string) (dependencies : list string)
    : BinaryPackage :=
  BinaryPackage_init name0 "1.0" "" ∅
    (Download_init ("https://example.org/" +:+ name0 +:+ ".rb") None None) []
    (parse_depends dependencies).

(** An index in which [a] and [b] depend on each other. *)
Definition cyclic_index : gmap string BinaryPackage :=
  <["a" := (example_node "a" ["b"])]>
    (<["b" := (example_node "b" ["a"])]> ∅).

(** An index in which the dependency [foo] of [a] only resolves through the
    [-git] fallback. *)
Definition fallback_index : gmap string BinaryPackage :=
  <["a" := (example_node "a" ["foo"])]>
    (<["foo-git" := (example_node "foo-git" [])]> ∅).

(** Ranks for the example indexes. *)
Definition example_rank (name0 : string) : nat :=
  if bool_decide (name0 = "A") then 2
  else if bool_decide (name0 = "B") then 1
  else if bool_decide (name0 = "a") then 1
  else 0.

(** An index with a diamond: [D] depends on [B] and [C], which both depend
    on [E]. *)
Definition diamond_index : gmap string BinaryPackage :=
  index_items example_repository
    [example_item "D" ["B"; "C"]; example_item "B" ["E"];
     example_item "C" ["E@1.1"]; example_item "E" []] ∅.

(** * Further examples *)

(** A record of the linuxbrew index that lists a bottle of a sibling
    repository besides its own. *)
Definition mixed_item : IndexItem :=
  {| item_name := Some "xz";
     item_versions_stable := Some "5.2.5";
     item_revision := Some 1%Z;
     item_urls_stable :=
       Some {| su_url := Some "https://example.org/xz-5.2.5.tar.gz";
               su_tag := None; su_revision := None; su_sha256 := None |};
     item_bottle_files :=
       Some [("catalina",
              {| bf_url := Some "https://homebrew.bintray.com/bottles/xz.tgz";
                 bf_sha256 := Some "aa" |});
             ("x86_64_linux",
              {| bf_url := Some "https://linuxbrew.bintray.com/bottles/xz.tgz";
                 bf_sha256 := Some "bb" |})];
     item_dependencies := Some [] |}.

Definition mixed_package : BinaryPackage :=
  match BinaryPackage_from_index mixed_item example_repository with
  | Ok p => p
  | Err _ => example_package
  end.

(** A formula file that declares one patch twice, and [example_package]
    after a scan of it. *)
Definition example_formula : list string :=
  ["class Xz < Formula";
   url_line "https://example.org/fix.tar.gz";
   url_line "https://example.org/fix.tar.gz"].

Definition example_package_scanned : BinaryPackage :=
  match add_formula_source_download_urls example_package example_formula with
  | Ok p => p
  | Err _ => example_package
  end.

(** ** Version hints *)

(** A package without the version hints of its dependencies. *)
Definition erase_hints (p : BinaryPackage) : BinaryPackage :=
  {| name := name p; version := version p; revision := revision p;
     download_urls := download_urls p;
     formula_download_url := formula_download_url p;
     source_download_urls := source_download_urls p;
     depends := (λ dep : string * string, (dep.1, "")) <$> depends p;
     fullversion := fullversion p; fqname := fqname p |}.

(** * The process: working directory and external tools *)

(** An action on the state [W] of the process and its machine: it returns or
    raises, and leaves a state either way. *)
Definition action (W A : Type) : Type := W → result A * W.

(** The primitives of the process that [pushd] and the fixers call.
    [macho_rewrite exe_path changefunc] stands for what [patchmacho] does
    with macholib: load the Mach-O file, [rewriteLoadCommands(changefunc)],
    write it back in place.  The law says that entering a directory under
    the name that [os.getcwd] once returned makes [os.getcwd] return that
    name again. *)
Class Process (W : Type) : Type := {
  os_getcwd : W → string;
  os_chdir : string → action W unit;
  subprocess_check_call : list string → action W unit;
  macho_rewrite : string → (string → option string) → action W unit;
  os_chdir_getcwd w0 w w' :
    os_chdir (os_getcwd w0) w = (Ok (), w') → os_getcwd w' = os_getcwd w0;
}.

Section process.
Context {W : Type} `{!Process W}.

(** [with pushd(path) as cwd: body]: the generator of the source, run by a
    [with] statement.  The [finally] clause runs whether [os.chdir(path)]
    raises, the body raises or the body returns; what it raises replaces
    what was raised before. *)
Definition pushd {A} (path : string) (body : string → action W A)
    : action W A := λ w,
  let original_cwd := os_getcwd w in
  let '(r, w2) :=
    match os_chdir path w with
    | (Ok _, w1) => body (os_getcwd w1) w1
    | (Err e, w1) => (Err e, w1)
    end in
  match os_chdir original_cwd w2 with
  | (Ok _, w3) => (r, w3)
  | (Err e, w3) => (Err e, w3)
  end.

(** [patchelf(args...)] *)
Definition patchelf (args : list string) : action W unit :=
  let cmdline := "patchelf" :: args in
  subprocess_check_call cmdline.

(** [patchmacho(exe_path)] *)
Definition patchmacho (exe_path : string) : action W unit :=
  macho_rewrite exe_path get_updated_loader_path.

(** The body of the loop of [apply_fixes] for one fix, a tuple of the name
    of a fixer and its arguments: the fixer of that name is looked up in
    [fixers] and called on the arguments. *)
Definition apply_fix (fix0 : string * list string) : action W unit :=
  let '(fixer, args) := fix0 in
  if bool_decide (fixer = "patchelf") then patchelf args
  else if bool_decide (fixer = "patchmacho") then
    match args with
    | [exe_path] => patchmacho exe_path
    | _ => λ w, (Err (TypeError "patchmacho() takes 1 positional argument"), w)
    end
  else λ w, (Err (KeyError fixer), w).

(** [apply_fixes(fixes)] *)
Fixpoint apply_fixes (fixes : list (string * list string)) : action W unit :=
  match fixes with
  | [] => λ w, (Ok (), w)
  | fix0 :: rest => λ w,
      match apply_fix fix0 w with
      | (Ok _, w1) => apply_fixes rest w1
      | (Err e, w1) => (Err e, w1)
      end
  end.

End process.

(** A process for examples: its working directory, the directories that
    cannot be entered and the command lines it ran; [patchelf] fails on a
    file named [missing.so]. *)
Record MemProcess : Type := mkMemProcess {
  mem_cwd : string;
  mem_no_entry : list string;
  mem_commands : list (list string);
}.

Definition mem_chdir (path : string) : action MemProcess unit := λ w,
  if bool_decide (path ∈ mem_no_entry w)
  then (Err (OSError ("No such file or directory: " +:+ path)), w)
  else (Ok (), {| mem_cwd := path; mem_no_entry := mem_no_entry w;
                  mem_commands := mem_commands w |}).

Definition mem_run (cmdline : list string) (w : MemProcess) : MemProcess :=
  {| mem_cwd := mem_cwd w; mem_no_entry := mem_no_entry w;
     mem_commands := mem_commands w ++ [cmdline] |}.

Definition mem_check_call (cmdline : list string) : action MemProcess unit :=
  λ w,
  if bool_decide ("missing.so" ∈ cmdline)
  then (Err (Exception "patchelf returned non-zero exit status 1"),
        mem_run cmdline w)
  else (Ok (), mem_run cmdline w).

Global Instance MemProcess_Process : Process MemProcess.
Proof.
  refine {| os_getcwd := mem_cwd;
            os_chdir := mem_chdir;
            subprocess_check_call := mem_check_call;
            macho_rewrite exe_path changefunc w :=
              (Ok (), mem_run ["macho"; exe_path] w) |}.
  intros w0 w w'. unfold mem_chdir.
  destruct (bool_decide (mem_cwd w0 ∈ mem_no_entry w)); [discriminate|].
  intros H. injection H as <-. reflexivity.
Defined.

Definition example_process : MemProcess :=
  {| mem_cwd := "/work"; mem_no_entry := ["/nowhere"]; mem_commands := [] |}.

(** A world that serves an index without any record. *)
Definition empty_world : World :=
  {| served u := Some []; fetched := [] |}.

(** * Properties *)

(** ** String and path lemmas *)

Lemma find_last_slash_None p :
  Py.find_last "/" p = None ↔ Py.contains "/" p = false.
Proof.
  induction p as [|c p IH]; [done|].
  cbn [Py.find_last Py.contains Py.startswith].
  destruct (Py.find_last "/" p) as [[h t]|] eqn:E.
  - split; [done|]. intros [_ H]%orb_false_iff.
    apply IH in H. done.
  - assert (Py.contains "/" p = false) as -> by by apply IH.
    by destruct (decide _).
Qed.

Lemma find_last_slash_tail p h t :
  Py.find_last "/" p = Some (h, t) → t = last_segment p.
Proof.
  revert h t. induction p as [|c p IH]; intros h t; [done|].
  cbn [Py.find_last last_segment Py.startswith].
  destruct (Py.find_last "/" p) as [[h' t']|] eqn:E.
  - intros [= <- <-].
    assert (Py.contains "/" p = true) as ->.
    { destruct (Py.contains "/" p) eqn:C; [done|].
      apply find_last_slash_None in C. congruence. }
    by eapply IH.
  - apply find_last_slash_None in E as ->.
    destruct (decide ("/"%char = c)) as [<-|Hne]; [|done].
    intros [= <- <-]. by rewrite decide_True.
Qed.

Lemma rpartition_slash_last_segment p :
  (Py.rpartition "/" p).2 = last_segment p.
Proof.
  unfold Py.rpartition.
  destruct (Py.find_last "/" p) as [[h t]|] eqn:E; simpl.
  - by eapply find_last_slash_tail.
  - apply find_last_slash_None in E. clear -E.
    induction p as [|c p IH]; [done|].
    cbn [Py.contains Py.startswith last_segment] in *.
    apply orb_false_iff in E as [E1 E2]. rewrite E2.
    destruct (decide ("/"%char = c)) as [<-|Hne]; [done|].
    by rewrite decide_False.
Qed.

(** The final segment holds no separator. *)
Lemma last_segment_no_slash p : Py.contains "/" (last_segment p) = false.
Proof.
  induction p as [|c p IH]; [done|]. cbn [last_segment].
  destruct (Py.contains "/" p) eqn:C; [done|].
  destruct (decide (c = "/"%char)) as [->|Hne]; [done|].
  cbn [Py.contains Py.startswith]. rewrite C.
  destruct (decide ("/"%char = c)); [congruence|done].
Qed.

(** ** Download.from_index *)

(** C7: a source-control record is rewritten into an archive download.  For
    the record of the specification the archive URL and file name are the
    expected ones; whenever a revision is given it is the commit-ish, whatever
    the tag is. *)
Theorem from_index_prefers_revision :
  Download_from_index "https://github.com/x/y.git" None (Some "abc123") None
    = Ok (Some {| url := "https://github.com/x/y/archive/abc123.tar.gz";
                  file_name := "y-abc123.tar.gz";
                  sha256 := None; fetched_location := None |})
  ∧ ∀ (url0 rev : string) (tag sha : option string),
      rev ≠ "" →
      Download_from_index url0 tag (Some rev) sha
        = Download_from_index url0 None (Some rev) sha
      ∧ (Py.startswith "https://github.com" (Py.strip "/" url0) = true →
         let repo_url :=
           if Py.endswith ".git" (Py.strip "/" url0)
           then (Py.rpartition ".git" (Py.strip "/" url0)).1.1
           else Py.strip "/" url0 in
         Download_from_index url0 tag (Some rev) sha
           = Ok (Some (Download_init
                         (repo_url +:+ "/archive/" +:+ rev +:+ ".tar.gz")
                         (Some (last_segment repo_url +:+ "-" +:+ rev +:+ ".tar.gz"))
                         sha))).
Proof.
  split; [done|].
  intros url0 rev tag sha Hrev.
  assert (Py.truthy (Some rev) = true) as Ht by by destruct rev.
  unfold Download_from_index. rewrite Ht, !andb_false_r.
  unfold Py.or_. rewrite Ht. split; [done|].
  intros ->. cbn [negb]. cbv zeta. by rewrite rpartition_slash_last_segment.
Qed.

Lemma from_index_prefers_revision_witness :
  Download_from_index "https://github.com/x/y.git" (Some "1.0") (Some "abc123")
      (Some "0123")
    = Download_from_index "https://github.com/x/y.git" None (Some "abc123")
        (Some "0123")
  ∧ Download_from_index "https://github.com/x/y.git" (Some "1.0")
      (Some "abc123") (Some "0123")
    = Ok (Some {| url := "https://github.com/x/y/archive/abc123.tar.gz";
                  file_name := "y-abc123.tar.gz";
                  sha256 := Some "0123"; fetched_location := None |}).
Proof.
  destruct (proj2 from_index_prefers_revision "https://github.com/x/y.git"
              "abc123" (Some "1.0") (Some "0123")) as [Htag Hurl].
  - discriminate.
  - split; [exact Htag|]. rewrite Hurl; reflexivity.
Defined.

(** C3: with neither tag nor revision the constructor returns a download of
    the URL as it is, for every URL; the bare [return] of the source is never
    reached. *)
Theorem from_index_bare_url_yields_download :
  Download_from_index "https://github.com/x/y.git" None None None
    = Ok (Some {| url := "https://github.com/x/y.git"; file_name := "y.git";
                  sha256 := None; fetched_location := None |})
  ∧ ∀ (url0 : string) (tag revision sha : option string),
      Download_from_index url0 tag revision sha ≠ Ok None.
Proof.
  split; [done|].
  intros url0 tag revision sha. unfold Download_from_index.
  destruct (negb (Py.truthy tag) && negb (Py.truthy revision)); [done|].
  destruct (negb (Py.startswith _ _)); done.
Qed.

(** ** The Mach-O path rewriter *)

(** C8: a load-command path that holds the placeholder becomes
    [@loader_path/] followed by its final segment, any other path is left as
    it is; so for the two paths of the specification. *)
Theorem patchmacho_path_spec :
  (∀ p : string,
     get_updated_loader_path p =
       if Py.contains HOMEBREW_PREFIX p
       then Some ("@loader_path/" +:+ last_segment p) else None)
  ∧ (∀ p : string,
       patchmacho_path p =
         if Py.contains HOMEBREW_PREFIX p
         then "@loader_path/" +:+ last_segment p else p)
  ∧ patchmacho_path "@@HOMEBREW_PREFIX@@/opt/xz/lib/liblzma.5.dylib"
      = "@loader_path/liblzma.5.dylib"
  ∧ patchmacho_path "/usr/lib/libSystem.B.dylib" = "/usr/lib/libSystem.B.dylib".
Proof.
  assert (∀ p : string,
            get_updated_loader_path p =
              if Py.contains HOMEBREW_PREFIX p
              then Some ("@loader_path/" +:+ last_segment p) else None)
    as Hchange.
  { intros p. unfold get_updated_loader_path.
    destruct (Py.contains HOMEBREW_PREFIX p); [|done].
    simpl. by rewrite rpartition_slash_last_segment. }
  split; [done|]. split; [|done].
  intros p. unfold patchmacho_path, rewrite_load_command. rewrite Hchange.
  by destruct (Py.contains HOMEBREW_PREFIX p).
Qed.

(** ** check_installed_files *)

Section validator.
Context {FS : Type} `{!FileSystem FS}.

(** One iteration of the validator appends the unmet expectation of a legal
    entry, if any, to [missing]. *)
Lemma check_pair_legal (fs : FS) install_dir entry missing :
  legal_entry entry →
  check_pair fs install_dir entry missing
    = Ok (missing ++ option_list (unmet_expectation fs install_dir entry)).
Proof.
  destruct entry as [src dst]. unfold legal_entry, classify. simpl.
  unfold check_pair, unmet_expectation, classify.
  destruct (Py.endswith "/" src), (Py.endswith "/" dst); simpl; try done;
    intros _.
  - destruct (os_path_exists fs _); simpl; [|done].
    case_bool_decide; simpl; [done|by rewrite app_nil_r].
  - destruct (os_path_exists fs _); simpl; [by rewrite app_nil_r|done].
  - destruct (os_path_exists fs _); simpl; [by rewrite app_nil_r|done].
Qed.

Lemma check_pairs_legal (fs : FS) install_dir copies missing :
  Forall legal_entry copies →
  check_pairs fs install_dir copies missing
    = Ok (missing ++ missing_artifacts fs install_dir copies).
Proof.
  intros Hlegal. revert missing.
  induction Hlegal as [|entry copies Hentry _ IH]; intros missing; simpl.
  { by rewrite app_nil_r. }
  rewrite check_pair_legal by done. simpl. rewrite IH.
  unfold missing_artifacts. simpl.
  destruct (unmet_expectation fs install_dir entry); simpl;
    by rewrite <-?app_assoc, ?app_nil_r.
Qed.

(** A directory-to-file entry is checked as a file-to-file entry is; the
    [raise] of the source is never reached. *)
Lemma check_pair_dir_to_file (fs : FS) install_dir src dst missing :
  Py.endswith "/" dst = false →
  check_pair fs install_dir (src, dst) missing
    = Ok (if os_path_exists fs (os_path.join install_dir dst) then missing
          else missing ++ [os_path.join install_dir dst]).
Proof.
  intros Hdst. unfold check_pair. rewrite Hdst. simpl.
  by destruct (os_path_exists fs _).
Qed.

Lemma check_pair_Ok (fs : FS) install_dir entry missing :
  is_Ok (check_pair fs install_dir entry missing).
Proof.
  destruct entry as [src dst]. unfold check_pair, is_Ok.
  destruct (Py.endswith "/" src), (Py.endswith "/" dst); simpl;
    repeat (first [destruct (os_path_exists fs _) | case_bool_decide]; simpl);
    eauto.
Qed.

Lemma check_pairs_Ok (fs : FS) install_dir copies missing :
  is_Ok (check_pairs fs install_dir copies missing).
Proof.
  revert missing. induction copies as [|entry copies IH]; intros missing; simpl.
  { by eexists. }
  destruct (check_pair_Ok fs install_dir entry missing) as [m ->]. simpl.
  apply IH.
Qed.

Lemma not_installed_msg_not_illegal package missing src dst :
  not_installed_msg package missing ≠ illegal_copy_msg src dst.
Proof. discriminate. Qed.

(** C6: on a plan of legal entries the validator checks every entry against
    its expected artifact and, when some are missing, raises one exception
    whose message lists all of them in plan order. *)
Theorem check_installed_files_aggregates (fs : FS) install_dir copies package :
  Forall legal_entry copies →
  check_installed_files fs install_dir copies package =
    match missing_artifacts fs install_dir copies with
    | [] => Ok ()
    | missing => Err (Exception (not_installed_msg package missing))
    end.
Proof.
  intros Hlegal. unfold check_installed_files.
  rewrite check_pairs_legal by done. simpl.
  by destruct (missing_artifacts fs install_dir copies).
Qed.

(** C2: a directory-to-file entry does not raise the illegal-copy exception:
    the plan that holds only [a/ -> b] passes when [b] exists in the install
    directory and is reported as an incomplete installation when it does
    not; no plan at all raises the illegal-copy exception. *)
Theorem check_installed_files_never_illegal (fs : FS) install_dir package :
  check_installed_files fs install_dir [("a/", "b")] package =
    (if os_path_exists fs (os_path.join install_dir "b") then Ok ()
     else Err (Exception
                 (not_installed_msg package [os_path.join install_dir "b"])))
  ∧ ∀ copies src dst,
      check_installed_files fs install_dir copies package
        ≠ Err (Exception (illegal_copy_msg src dst)).
Proof.
  split.
  - unfold check_installed_files, check_pairs.
    rewrite check_pair_dir_to_file by done. simpl.
    by destruct (os_path_exists fs _).
  - intros copies src dst. unfold check_installed_files.
    destruct (check_pairs_Ok fs install_dir copies []) as [m ->]. simpl.
    destruct m as [|path m]; [done|]. intros H.
    eapply (not_installed_msg_not_illegal package (path :: m) src dst).
    exact (f_equal
             (λ r, match r with Err (Exception msg) => msg | _ => "" end) H).
Qed.

End validator.

Lemma check_installed_files_aggregates_witness :
  check_installed_files example_fs "inst"
    [("xz/lib/", "lib/"); ("xz/COPYING", "licenses/"); ("xz/bin/xz", "bin/xz")]
    example_package
  = Err (Exception (not_installed_msg example_package
                      ["inst/licenses/COPYING"; "inst/bin/xz"])).
Proof.
  rewrite check_installed_files_aggregates; [reflexivity|].
  repeat constructor; unfold legal_entry; vm_compute; discriminate.
Defined.

(** ** add_formula_source_download_urls *)

(** The loop appends one download for every scanned URL that is absent from
    the URLs known before the scan, as often as the URL is scanned. *)
Lemma add_urls_spec known_urls urls downloads :
  add_urls known_urls urls downloads =
    downloads ++
    ((λ u, Some (Download_init u None None)) <$> filter (.∉ known_urls) urls).
Proof.
  revert downloads. induction urls as [|u urls IH]; intros downloads; simpl.
  { by rewrite app_nil_r. }
  rewrite filter_cons, IH.
  case_bool_decide; destruct (decide _); try done.
  simpl. by rewrite <-app_assoc.
Qed.

(** C9: a URL declared on two lines of one formula file is registered twice:
    the source downloads of the package are not deduplicated by URL. *)
Theorem add_formula_source_download_urls_duplicates :
  let formula :=
    [url_line "https://example.org/fix.tar.gz";
     url_line "https://example.org/fix.tar.gz"] in
  get_formula_source_urls formula
    = ["https://example.org/fix.tar.gz"; "https://example.org/fix.tar.gz"]
  ∧ source_download_urls
      <$> add_formula_source_download_urls example_package formula
    = Ok [Some (Download_init "https://example.org/xz-5.2.5.tar.gz" None None);
          Some (Download_init "https://example.org/fix.tar.gz" None None);
          Some (Download_init "https://example.org/fix.tar.gz" None None)].
Proof. split; reflexivity. Qed.

(** In general the scan appends a download for every occurrence of every
    scanned URL that was not known before the scan. *)
Lemma add_formula_source_download_urls_spec self formula known_urls :
  known_urls_of (source_download_urls self) = Ok known_urls →
  source_download_urls <$> add_formula_source_download_urls self formula
    = Ok (source_download_urls self ++
          ((λ u, Some (Download_init u None None))
             <$> filter (.∉ known_urls) (get_formula_source_urls formula))).
Proof.
  intros Hknown. unfold add_formula_source_download_urls.
  rewrite Hknown. simpl. by rewrite add_urls_spec.
Qed.

(** ** install_files *)

Section installer.
Context {FS : Type} `{!FileSystem FS}.

Lemma install_pairs_app extracted_dir install_dir pre post (fs : FS) :
  install_pairs extracted_dir install_dir (pre ++ post) fs =
    install_pairs extracted_dir install_dir pre fs
      ≫= install_pairs extracted_dir install_dir post.
Proof.
  revert fs. induction pre as [|entry pre IH]; intros fs; simpl; [done|].
  destruct (install_pair extracted_dir install_dir entry fs); simpl; [|done].
  apply IH.
Qed.

(** C10: a pair whose source does not exist under the extraction directory
    when its turn comes is skipped: the file system is left as it is, nothing
    is raised, and the whole installation runs as if the pair were not in
    the plan. *)
Theorem install_pair_missing_source_skipped
    extracted_dir install_dir pre src dst post (fs0 fs1 : FS) :
  install_pairs extracted_dir install_dir pre fs0 = Ok fs1 →
  os_path_exists fs1 (os_path.join extracted_dir src) = false →
  install_pair extracted_dir install_dir (src, dst) fs1 = Ok fs1
  ∧ install_pairs extracted_dir install_dir (pre ++ (src, dst) :: post) fs0
    = install_pairs extracted_dir install_dir (pre ++ post) fs0
  ∧ ∀ package_name package_fullversion,
      install_files extracted_dir install_dir package_name
        package_fullversion (Some (pre ++ (src, dst) :: post)) fs0
      = install_pairs extracted_dir install_dir (pre ++ post) fs0.
Proof.
  intros Hpre Hmissing.
  assert (install_pair extracted_dir install_dir (src, dst) fs1 = Ok fs1)
    as Hskip by (unfold install_pair; by rewrite Hmissing).
  assert (install_pairs extracted_dir install_dir (pre ++ (src, dst) :: post) fs0
          = install_pairs extracted_dir install_dir (pre ++ post) fs0) as Hrun.
  { rewrite !install_pairs_app, Hpre.
    change (install_pairs extracted_dir install_dir ((src, dst) :: post) fs1
            = install_pairs extracted_dir install_dir post fs1).
    cbn [install_pairs]. by rewrite Hskip. }
  split; [done|]. split; [done|].
  intros package_name package_fullversion. unfold install_files.
  by destruct pre.
Qed.

End installer.

Lemma install_pair_missing_source_skipped_witness :
  install_pairs "ext" "inst"
    [("xz/lib/", "lib/"); ("xz/COPYING", "licenses/"); ("xz/bin/xz", "bin/xz")]
    {| mem_files := ["ext/xz/bin/xz"]; mem_dirs := [("ext/xz/lib/", [])] |}
  = install_pairs "ext" "inst"
    [("xz/lib/", "lib/"); ("xz/bin/xz", "bin/xz")]
    {| mem_files := ["ext/xz/bin/xz"]; mem_dirs := [("ext/xz/lib/", [])] |}.
Proof.
  refine (proj1 (proj2 (install_pair_missing_source_skipped "ext" "inst"
            [("xz/lib/", "lib/")] "xz/COPYING" "licenses/"
            [("xz/bin/xz", "bin/xz")] _ _ _ _))).
  - reflexivity.
  - reflexivity.
Defined.

(** ** Repository.update_packages_index *)

Lemma index_items_wf repo items packages0 :
  wf_index packages0 → wf_index (index_items repo items packages0).
Proof.
  revert packages0. induction items as [|item items IH]; intros packages0 Hwf;
    simpl; [done|].
  destruct (BinaryPackage_from_index item repo) as [binary|]; [|by apply IH].
  apply IH. intros key p. rewrite lookup_insert_Some.
  intros [[<- <-]|[_ Hp]]; [done|by apply Hwf].
Qed.

(** The index that [update_packages_index] returns is keyed by package
    name. *)
Lemma update_packages_index_wf self cache_dir w m self1 w1 :
  wf_index (packages self) →
  update_packages_index self cache_dir w = (Ok m, self1, w1) →
  wf_index m.
Proof.
  intros Hwf. unfold update_packages_index.
  case_bool_decide; [by intros [= <- _ _]|].
  destruct (fetch_index _ w) as [[items|e] w'] eqn:Hfetch; [|done].
  intros [= <- _ _]. apply index_items_wf. intros key p.
  by rewrite lookup_empty.
Qed.

Lemma update_packages_index_hit self cache_dir w :
  packages self ≠ ∅ →
  update_packages_index self cache_dir w = (Ok (packages self), self, w).
Proof.
  intros Hpop. unfold update_packages_index. by rewrite bool_decide_true.
Qed.

Lemma update_packages_index_again_hit cache_dirs self w :
  packages self ≠ ∅ →
  update_packages_index_again cache_dirs self w
    = (replicate (length cache_dirs) (Ok (packages self)), self, w).
Proof.
  intros Hpop. induction cache_dirs as [|cache_dir rest IH]; simpl; [done|].
  by rewrite update_packages_index_hit, IH.
Qed.

(** C5: once a call has populated the mapping (left it non-empty), every
    later call on the repository returns that same mapping, leaves the
    repository as it is and fetches nothing: the world, with its log of
    fetches, is unchanged. *)
Theorem update_packages_index_cached self cache_dir w m self1 w1 :
  update_packages_index self cache_dir w = (Ok m, self1, w1) →
  m ≠ ∅ →
  packages self1 = m
  ∧ (∀ cache_dir', update_packages_index self1 cache_dir' w1 = (Ok m, self1, w1))
  ∧ (∀ cache_dirs,
       update_packages_index_again cache_dirs self1 w1
         = (replicate (length cache_dirs) (Ok m), self1, w1)).
Proof.
  intros Hcall Hpop.
  assert (packages self1 = m) as Hm.
  { revert Hcall. unfold update_packages_index.
    case_bool_decide; [by intros [= <- <- _]|].
    destruct (fetch_index _ w) as [[items|e] w'] eqn:Hfetch; [|done].
    by intros [= <- <- _]. }
  subst m. split; [done|]. split.
  - intros cache_dir'. by apply update_packages_index_hit.
  - intros cache_dirs. by apply update_packages_index_again_hit.
Qed.

Lemma update_packages_index_cached_witness :
  update_packages_index example_repository_loaded "elsewhere"
    example_world_loaded
  = (Ok example_index, example_repository_loaded, example_world_loaded).
Proof.
  refine (proj1 (proj2 (update_packages_index_cached example_repository
            "cache" example_world _ _ _ _ _)) "elsewhere").
  - reflexivity.
  - intros Hempty.
    assert (example_index !! "A" = None) as HA by (by rewrite Hempty).
    vm_compute in HA. discriminate HA.
Defined.

(** ** The dependency walk *)

Section walk.
Context (binary_packages : gmap string BinaryPackage) (ignore_deps : list string).

Implicit Types (recur : BinaryPackage → result (list BinaryPackage)).

Lemma get_all_dependents_unfold depth self :
  get_all_dependents depth binary_packages ignore_deps self =
    walk_depends
      (match depth with
       | 0 => λ _, Err RecursionError
       | S depth' => get_all_dependents depth' binary_packages ignore_deps
       end) binary_packages ignore_deps (depends self).
Proof. by destruct depth. Qed.

Lemma lookup_dep_Ok dep_name q :
  lookup_dep binary_packages dep_name = Ok q ↔
    binary_packages !! dep_name = Some q
    ∨ (binary_packages !! dep_name = None
       ∧ binary_packages !! (dep_name +:+ "-git") = Some q).
Proof.
  unfold lookup_dep, getitem.
  destruct (binary_packages !! dep_name) as [p|].
  - split; [intros [= <-]; by left|]. by intros [[= <-]|[[=] _]].
  - destruct (binary_packages !! (dep_name +:+ "-git")) as [p|].
    + split; [intros [= <-]; by right|]. by intros [[=]|[_ [= <-]]].
    + split; [done|]. by intros [[=]|[_ [=]]].
Qed.

Lemma lookup_dep_in_index dep_name q :
  lookup_dep binary_packages dep_name = Ok q → in_index binary_packages q.
Proof. intros [?|[_ ?]]%lookup_dep_Ok; by eexists. Qed.

(** *** What a successful walk yields *)

Lemma walk_depends_preorder recur deps all :
  (∀ q below, recur q = Ok below →
     preorder binary_packages ignore_deps (depends q) below) →
  walk_depends recur binary_packages ignore_deps deps = Ok all →
  preorder binary_packages ignore_deps deps all.
Proof.
  intros Hrecur. revert all.
  induction deps as [|[dep_name dep_req] rest IH]; intros all; simpl.
  { intros [= <-]. constructor. }
  case_bool_decide as Hign.
  { intros Hrest. constructor; auto. }
  destruct (lookup_dep binary_packages dep_name) as [q|] eqn:Hq; [|done].
  simpl. destruct (recur q) as [below|] eqn:Hbelow; [|done].
  simpl. destruct (walk_depends recur _ _ rest) as [others|]; [|done].
  simpl. intros [= <-]. apply preorder_visit; auto.
Qed.

Lemma get_all_dependents_preorder depth self all :
  get_all_dependents depth binary_packages ignore_deps self = Ok all →
  preorder binary_packages ignore_deps (depends self) all.
Proof.
  revert self all. induction depth as [|depth IH]; intros self all;
    rewrite get_all_dependents_unfold; apply walk_depends_preorder; auto.
  done.
Qed.

Lemma walk_depends_mono recur recur' deps all :
  (∀ q below, recur q = Ok below → recur' q = Ok below) →
  walk_depends recur binary_packages ignore_deps deps = Ok all →
  walk_depends recur' binary_packages ignore_deps deps = Ok all.
Proof.
  intros Hrecur. revert all.
  induction deps as [|[dep_name dep_req] rest IH]; intros all; simpl; [done|].
  case_bool_decide as Hign; [by apply IH|].
  destruct (lookup_dep binary_packages dep_name) as [q|] eqn:Hq; [|done].
  simpl. destruct (recur q) as [below|] eqn:Hbelow; [|done].
  rewrite (Hrecur _ _ Hbelow). simpl.
  destruct (walk_depends recur _ _ rest) as [others|]; [|done].
  by rewrite (IH others).
Qed.

(** A deeper recursion bound does not change a result. *)
Lemma get_all_dependents_mono depth depth' self all :
  depth ≤ depth' →
  get_all_dependents depth binary_packages ignore_deps self = Ok all →
  get_all_dependents depth' binary_packages ignore_deps self = Ok all.
Proof.
  intros Hle. revert depth Hle self all.
  induction depth' as [|depth' IH]; intros depth Hle self all.
  { by replace depth with 0 by lia. }
  rewrite !get_all_dependents_unfold. destruct depth as [|depth].
  - by apply walk_depends_mono.
  - apply walk_depends_mono. intros q below. apply IH. lia.
Qed.

(** *** When a walk succeeds, when it fails *)

Lemma walk_depends_Ok recur deps :
  (∀ dep_name dep_req, (dep_name, dep_req) ∈ deps → dep_name ∉ ignore_deps →
     ∃ q, lookup_dep binary_packages dep_name = Ok q ∧ is_Ok (recur q)) →
  is_Ok (walk_depends recur binary_packages ignore_deps deps).
Proof.
  induction deps as [|[dep_name dep_req] rest IH]; intros Hdeps; simpl.
  { by eexists. }
  destruct IH as [others Hothers].
  { intros ????. eapply Hdeps; [by right|done]. }
  case_bool_decide as Hign; [by eexists|].
  destruct (Hdeps dep_name dep_req) as (q & Hq & below & Hbelow);
    [by left|done|].
  rewrite Hq. simpl. rewrite Hbelow. simpl. rewrite Hothers. by eexists.
Qed.

Lemma walk_depends_Ok_inv recur deps all dep_name dep_req q :
  walk_depends recur binary_packages ignore_deps deps = Ok all →
  (dep_name, dep_req) ∈ deps → dep_name ∉ ignore_deps →
  lookup_dep binary_packages dep_name = Ok q →
  is_Ok (recur q).
Proof.
  intros Hwalk Hin Hign Hq. revert all Hwalk.
  induction deps as [|[dep_name' dep_req'] rest IH]; intros all; simpl.
  { by apply elem_of_nil in Hin. }
  apply elem_of_cons in Hin as [[= <- <-]|Hin].
  - rewrite bool_decide_false, Hq by done. simpl.
    destruct (recur q) as [below|]; [by eexists|done].
  - case_bool_decide; [by eapply IH|].
    destruct (lookup_dep binary_packages dep_name') as [q'|]; [|done].
    simpl. destruct (recur q') as [below|]; [|done].
    simpl. destruct (walk_depends recur _ _ rest) as [others|]; [|done].
    intros _. by eapply IH.
Qed.

Lemma walk_depends_Err recur deps e :
  (∀ dep_name dep_req, (dep_name, dep_req) ∈ deps → dep_name ∉ ignore_deps →
     ∃ q, lookup_dep binary_packages dep_name = Ok q
          ∧ (∀ e', recur q = Err e' → e' = RecursionError)) →
  walk_depends recur binary_packages ignore_deps deps = Err e → e = RecursionError.
Proof.
  induction deps as [|[dep_name dep_req] rest IH]; intros Hdeps; simpl; [done|].
  assert (walk_depends recur binary_packages ignore_deps rest = Err e →
          e = RecursionError) as IH'.
  { apply IH. intros ????. eapply Hdeps; [by right|done]. }
  case_bool_decide as Hign; [done|].
  destruct (Hdeps dep_name dep_req) as (q & Hlookup & Hq); [by left|done|].
  rewrite Hlookup. simpl. destruct (recur q) as [below|e'] eqn:Hbelow; simpl.
  - destruct (walk_depends recur _ _ rest) as [others|e']; [done|].
    simpl. intros [= <-]. by apply IH'.
  - intros [= <-]. by apply Hq.
Qed.

End walk.

(** ** The dependency graph *)

Section graph_facts.
Context (binary_packages : gmap string BinaryPackage) (ignore_deps : list string).

Lemma dep_edge_in_index p q :
  dep_edge binary_packages ignore_deps p q → in_index binary_packages q.
Proof.
  intros (dep_name & dep_req & _ & _ & Hq). by eapply lookup_dep_in_index.
Qed.

Lemma reachable_in_index p q :
  reachable binary_packages ignore_deps p q → in_index binary_packages q.
Proof.
  induction 1 as [p q Hedge|p p' q _ _ IH]; [|done].
  by eapply dep_edge_in_index.
Qed.

(** A reachable package was resolved from a dependency name that is not
    ignored. *)
Lemma reachable_last_edge p q :
  reachable binary_packages ignore_deps p q →
  ∃ dep_name, (dep_name ∉ ignore_deps)
    ∧ lookup_dep binary_packages dep_name = Ok q.
Proof.
  induction 1 as [p q Hedge|p p' q _ _ IH]; [|done].
  destruct Hedge as (dep_name & dep_req & _ & Hign & Hq). eauto.
Qed.

Lemma reachable_inv p q :
  reachable binary_packages ignore_deps p q ↔
    ∃ q0, dep_edge binary_packages ignore_deps p q0
          ∧ rtc (dep_edge binary_packages ignore_deps) q0 q.
Proof.
  split.
  - intros [p' q' Hedge|p' q0 q' Hedge Htc].
    + by exists q'.
    + exists q0. split; [done|]. by apply tc_rtc.
  - intros (q0 & Hedge & Hrtc). eapply tc_rtc_r; [by apply tc_once|done].
Qed.

(** The packages of a pre-order are those reachable through its
    dependencies. *)
Lemma preorder_elem deps all :
  preorder binary_packages ignore_deps deps all →
  ∀ q, q ∈ all ↔
    ∃ dep_name dep_req q0,
      (dep_name, dep_req) ∈ deps ∧ (dep_name ∉ ignore_deps)
      ∧ lookup_dep binary_packages dep_name = Ok q0
      ∧ rtc (dep_edge binary_packages ignore_deps) q0 q.
Proof.
  induction 1 as
    [|dep_name dep_req rest others Hign _ IH
     |dep_name dep_req rest q0 below others Hign Hq0 _ IHbelow _ IHothers];
    intros q.
  - split; [by intros ?%elem_of_nil|].
    by intros (? & ? & ? & ?%elem_of_nil & _).
  - rewrite IH. split.
    + intros (dn & dr & q1 & Hin & ?). exists dn, dr, q1. split; [by right|done].
    + intros (dn & dr & q1 & [[= -> ->]|Hin]%elem_of_cons & Hdn & ?);
        [done|]. by exists dn, dr, q1.
  - rewrite elem_of_cons, elem_of_app, IHbelow, IHothers. split.
    + intros [->|[(dn & dr & q1 & Hin & Hdn & Hq1 & Hrtc)
                 |(dn & dr & q1 & Hin & ?)]].
      * exists dep_name, dep_req, q0. split; [by left|done].
      * exists dep_name, dep_req, q0. split; [by left|].
        do 2 (split; [done|]). eapply rtc_l; [|done]. by exists dn, dr.
      * exists dn, dr, q1. split; [by right|done].
    + intros (dn & dr & q1 & [[= -> ->]|Hin]%elem_of_cons & Hdn & Hq1 & Hrtc).
      * rewrite Hq0 in Hq1. injection Hq1 as <-.
        apply rtc_inv in Hrtc as [->|(q1 & Hedge & Hrtc)]; [by left|].
        right; left. destruct Hedge as (dn & dr & ? & ? & ?).
        by exists dn, dr, q1.
      * right; right. by exists dn, dr, q1.
Qed.

(** A successful walk yields the reachable packages, and only them. *)
Lemma get_all_dependents_elem depth self all q :
  get_all_dependents depth binary_packages ignore_deps self = Ok all →
  q ∈ all ↔ reachable binary_packages ignore_deps self q.
Proof.
  intros Hall%get_all_dependents_preorder.
  rewrite (preorder_elem _ _ Hall), reachable_inv. split.
  - intros (dn & dr & q0 & ? & ? & ? & ?). exists q0.
    split; [by exists dn, dr|done].
  - intros (q0 & (dn & dr & ? & ? & ?) & ?). by exists dn, dr, q0.
Qed.

(** *** Termination on acyclic indexes *)

Lemma stack_bound (stack : list BinaryPackage) :
  NoDup stack → (∀ s, s ∈ stack → in_index binary_packages s) →
  length stack ≤ size binary_packages.
Proof.
  intros Hnodup Hin.
  rewrite <-length_map_to_list, <-(length_fmap snd).
  apply submseteq_length, NoDup_submseteq; [done|].
  intros s [key Hkey]%Hin. apply list_elem_of_fmap.
  exists (key, s). split; [done|]. by apply elem_of_map_to_list.
Qed.

Lemma closed_from_edge p q :
  closed_from binary_packages ignore_deps p →
  dep_edge binary_packages ignore_deps p q →
  closed_from binary_packages ignore_deps q.
Proof.
  intros Hclosed Hedge p' dn dr Hrtc. apply Hclosed. by eapply rtc_l.
Qed.

(** A call on a package of the index succeeds when the recursion bound
    covers the packages of the index that are not on the call stack. *)
Lemma get_all_dependents_terminates_below depth stack q :
  acyclic binary_packages ignore_deps →
  NoDup stack →
  (∀ s, s ∈ stack →
     in_index binary_packages s ∧ reachable binary_packages ignore_deps s q) →
  in_index binary_packages q →
  closed_from binary_packages ignore_deps q →
  size binary_packages ≤ depth + length stack + 1 →
  is_Ok (get_all_dependents depth binary_packages ignore_deps q).
Proof.
  intros Hacyclic. revert stack q.
  induction depth as [|depth IH]; intros stack q Hnodup Hstack Hq Hclosed Hsize;
    rewrite get_all_dependents_unfold; apply walk_depends_Ok;
    intros dn dr Hin Hign;
    destruct (Hclosed q dn dr) as [q' Hq']; try done;
    exists q'; (split; [done|]);
    assert (dep_edge binary_packages ignore_deps q q') as Hedge
      by (by exists dn, dr);
    assert (NoDup (q :: stack)) as Hnodup'
      by (apply NoDup_cons; split; [|done];
          intros Hqs; by apply (Hacyclic q), Hstack);
    assert (∀ s, s ∈ q :: stack →
              in_index binary_packages s
              ∧ reachable binary_packages ignore_deps s q') as Hstack'
      by (intros s [->|Hs]%elem_of_cons;
          [split; [done|by apply tc_once]
          |split; [by apply Hstack|eapply tc_r; [by apply Hstack|done]]]).
  - exfalso.
    assert (length (q' :: q :: stack) ≤ size binary_packages) as Hbound.
    { apply stack_bound.
      - apply NoDup_cons. split; [|done].
        intros Hqs. by apply (Hacyclic q'), Hstack'.
      - intros s [->|Hs]%elem_of_cons; [by eapply dep_edge_in_index|].
        by apply Hstack'. }
    simpl in Hbound. lia.
  - apply (IH (q :: stack)); try done.
    + by eapply dep_edge_in_index.
    + by eapply closed_from_edge.
    + simpl. lia.
Qed.

(** On an acyclic index whose dependencies resolve, a recursion bound of the
    size of the index is enough for the walk from any package. *)
Lemma get_all_dependents_terminates depth root :
  acyclic binary_packages ignore_deps →
  closed_from binary_packages ignore_deps root →
  size binary_packages ≤ depth →
  is_Ok (get_all_dependents depth binary_packages ignore_deps root).
Proof.
  intros Hacyclic Hclosed Hsize.
  rewrite get_all_dependents_unfold. apply walk_depends_Ok.
  intros dn dr Hin Hign.
  destruct (Hclosed root dn dr) as [q' Hq']; try done.
  exists q'. split; [done|].
  assert (dep_edge binary_packages ignore_deps root q') as Hedge
    by (by exists dn, dr).
  assert (in_index binary_packages q') as Hq'_in
    by (by eapply dep_edge_in_index).
  destruct depth as [|depth].
  - exfalso.
    assert (length [q'] ≤ size binary_packages) as Hbound.
    { apply stack_bound; [apply NoDup_singleton|].
      by intros s ->%list_elem_of_singleton. }
    simpl in Hbound. lia.
  - apply (get_all_dependents_terminates_below depth []); try done.
    + constructor.
    + by intros s ?%elem_of_nil.
    + by eapply closed_from_edge.
    + simpl. lia.
Qed.

(** *** Failure on cyclic indexes *)

Lemma get_all_dependents_Ok_edge depth p q :
  is_Ok (get_all_dependents depth binary_packages ignore_deps p) →
  dep_edge binary_packages ignore_deps p q →
  ∃ depth', depth = S depth'
    ∧ is_Ok (get_all_dependents depth' binary_packages ignore_deps q).
Proof.
  intros [all Hall] (dn & dr & Hin & Hign & Hq).
  rewrite get_all_dependents_unfold in Hall.
  pose proof (walk_depends_Ok_inv _ _ _ _ _ _ _ _ Hall Hin Hign Hq) as Hrec.
  destruct depth as [|depth]; [by destruct Hrec|]. by exists depth.
Qed.

(** No recursion bound lets the walk return once a cycle lies ahead. *)
Lemma get_all_dependents_cycle depth p q :
  rtc (dep_edge binary_packages ignore_deps) p q →
  reachable binary_packages ignore_deps q q →
  ¬ is_Ok (get_all_dependents depth binary_packages ignore_deps p).
Proof.
  intros Hrtc Hcycle. revert p Hrtc.
  induction depth as [|depth IH]; intros p Hrtc Hok.
  all: assert (∃ p', dep_edge binary_packages ignore_deps p p'
                  ∧ rtc (dep_edge binary_packages ignore_deps) p' q)
         as (p' & Hedge & Hrtc')
         by (apply rtc_inv in Hrtc as [->|?]; [by apply reachable_inv|done]).
  all: destruct (get_all_dependents_Ok_edge _ _ _ Hok Hedge)
         as (depth' & Hdepth & Hok').
  - done.
  - injection Hdepth as <-. by eapply IH.
Qed.

(** When every dependency resolves, a failing walk fails on the recursion
    bound. *)
Lemma get_all_dependents_closed_Err depth p e :
  closed_from binary_packages ignore_deps p →
  get_all_dependents depth binary_packages ignore_deps p = Err e →
  e = RecursionError.
Proof.
  revert p e. induction depth as [|depth IH]; intros p e Hclosed;
    rewrite get_all_dependents_unfold; apply walk_depends_Err;
    intros dn dr Hin Hign;
    destruct (Hclosed p dn dr) as [q Hq]; try done;
    exists q; (split; [done|]).
  - by intros e' [= <-].
  - intros e'. apply IH. eapply closed_from_edge; [done|]. by exists dn, dr.
Qed.

End graph_facts.

(** ** Checking an index *)

Section checks.
Context (binary_packages : gmap string BinaryPackage) (ignore_deps : list string).

Lemma in_index_elem p :
  in_index binary_packages p ↔ p ∈ (map_to_list binary_packages).*2.
Proof.
  rewrite list_elem_of_fmap. split.
  - intros [key Hkey]. exists (key, p). by rewrite elem_of_map_to_list.
  - intros ([key p'] & -> & Hin%elem_of_map_to_list). by exists key.
Qed.

Lemma keyed_by_name_wf :
  keyed_by_name binary_packages = true → wf_index binary_packages.
Proof.
  unfold keyed_by_name. rewrite forallb_forall. intros Hall key p Hp.
  apply elem_of_map_to_list, list_elem_of_In, Hall in Hp.
  by apply bool_decide_eq_true in Hp.
Qed.

Lemma all_resolve_closed_from root :
  all_resolve binary_packages ignore_deps root = true →
  closed_from binary_packages ignore_deps root.
Proof.
  unfold all_resolve. rewrite forallb_forall. intros Hall p dn dr Hrtc Hin Hign.
  assert (p ∈ root :: (map_to_list binary_packages).*2) as Hp.
  { apply rtc_inv_r in Hrtc as [->|(p' & _ & Hedge)]; [by left|].
    right. by eapply in_index_elem, dep_edge_in_index. }
  apply list_elem_of_In, Hall in Hp. rewrite forallb_forall in Hp.
  apply list_elem_of_In, Hp in Hin. unfold dep_resolves in Hin. simpl in Hin.
  rewrite bool_decide_false in Hin by done. simpl in Hin.
  destruct (lookup_dep binary_packages dn) as [q|]; [by eexists|done].
Qed.

Lemma rank_decreases_acyclic rank :
  rank_decreases binary_packages ignore_deps rank = true →
  acyclic binary_packages ignore_deps.
Proof.
  unfold rank_decreases. rewrite forallb_forall. intros Hall.
  assert (∀ p q, in_index binary_packages p →
            reachable binary_packages ignore_deps p q →
            rank (name q) < rank (name p)) as Hrank.
  { intros p q Hp Hreach. revert Hp.
    assert (∀ p q, in_index binary_packages p →
              dep_edge binary_packages ignore_deps p q →
              rank (name q) < rank (name p)) as Hedge.
    { clear p q Hreach. intros p q Hp (dn & dr & Hin & Hign & Hq).
      apply in_index_elem, list_elem_of_In, Hall in Hp.
      rewrite forallb_forall in Hp. apply list_elem_of_In, Hp in Hin.
      unfold dep_descends in Hin. simpl in Hin.
      rewrite bool_decide_false, Hq in Hin by done.
      by apply bool_decide_eq_true in Hin. }
    induction Hreach as [p q Hpq|p p' q Hpp' _ IH]; intros Hp; [by apply Hedge|].
    etrans; [apply IH; by eapply dep_edge_in_index|by apply Hedge]. }
  intros p Hcycle.
  pose proof (Hrank p p (reachable_in_index _ _ _ _ Hcycle) Hcycle). lia.
Qed.

End checks.

(** ** get_unique_dependents *)

Lemma first_by_name_elem q l : q ∈ first_by_name l → q ∈ l.
Proof.
  induction l as [|p rest IH]; simpl; [done|].
  intros [->|[_ Hq]%list_elem_of_filter]%elem_of_cons; [by left|].
  right. by apply IH.
Qed.

Lemma first_by_name_complete q l :
  q ∈ l → ∃ q', q' ∈ first_by_name l ∧ name q' = name q.
Proof.
  induction l as [|p rest IH]; simpl; [by intros ?%elem_of_nil|].
  intros [->|Hq]%elem_of_cons; [exists p; split; [by left|done]|].
  destruct (IH Hq) as (q' & Hq' & Hname).
  destruct (decide (name q' = name p)) as [Heq|Hne].
  - exists p. split; [by left|congruence].
  - exists q'. split; [|done]. right. by apply list_elem_of_filter.
Qed.

Lemma NoDup_fmap_filter {A B} (f : A → B) (P : A → Prop)
    `{!∀ x, Decision (P x)} (l : list A) :
  NoDup (f <$> l) → NoDup (f <$> filter P l).
Proof.
  induction l as [|x l IH]; [done|]. rewrite filter_cons. csimpl.
  intros [Hx Hl]%NoDup_cons. destruct (decide (P x)); [|by apply IH].
  csimpl. apply NoDup_cons. split; [|by apply IH].
  intros (y & Hy & [_ Hin]%list_elem_of_filter)%list_elem_of_fmap.
  apply Hx, list_elem_of_fmap. by exists y.
Qed.

Lemma first_by_name_NoDup l : NoDup (name <$> first_by_name l).
Proof.
  induction l as [|p rest IH]; csimpl; [constructor|].
  apply NoDup_cons. split; [|by apply NoDup_fmap_filter].
  by intros (q & Hq & [Hne _]%list_elem_of_filter)%list_elem_of_fmap.
Qed.

(** The dict of [get_unique_dependents] keeps each package where its name is
    met first. *)
Lemma unique_by_name_spec l unique :
  (unique_by_name l unique).*2 =
    unique.*2 ++ filter (λ q, name q ∉ unique.*1) (first_by_name l).
Proof.
  revert unique. induction l as [|p rest IH]; intros unique; simpl.
  { by rewrite app_nil_r. }
  case_bool_decide as Hp; rewrite IH.
  - rewrite filter_cons_False by (by intros []).
    rewrite list_filter_filter. f_equal. apply list_filter_iff.
    intros q. split; [|by intros []]. intros Hq. split; [done|congruence].
  - rewrite filter_cons_True by done.
    rewrite !fmap_app, list_filter_filter, <-app_assoc. simpl. do 2 f_equal.
    apply list_filter_iff. intros q.
    rewrite not_elem_of_app, list_elem_of_singleton. done.
Qed.

Lemma unique_by_name_first l : (unique_by_name l []).*2 = first_by_name l.
Proof.
  rewrite unique_by_name_spec. simpl.
  induction (first_by_name l) as [|p rest IH]; [done|].
  rewrite filter_cons_True by apply not_elem_of_nil. by rewrite IH.
Qed.

Lemma get_unique_dependents_Ok depth binary_packages ignore_deps root all :
  get_all_dependents depth binary_packages ignore_deps root = Ok all →
  get_unique_dependents depth binary_packages ignore_deps root
    = Ok (first_by_name all).
Proof.
  intros Hall. unfold get_unique_dependents. rewrite Hall. simpl.
  by rewrite unique_by_name_first.
Qed.

(** C1, as amended: a package without dependencies resolves to the empty
    list.  On an index keyed by package name whose non-ignored dependency
    graph is acyclic and whose non-ignored dependency names all resolve, any
    recursion bound from the size of the index on returns one list: the
    depth-first pre-order of the dependencies, each package kept where its
    name is met first.  It holds the packages reachable from the root
    through non-ignored dependency edges, each exactly once.  Each of them
    was resolved from a dependency name that is not ignored; its own name is
    ignored only when it was resolved through the [-git] fallback. *)
Theorem get_unique_dependents_resolves binary_packages ignore_deps root :
  (depends root = [] →
   ∀ depth,
     get_unique_dependents depth binary_packages ignore_deps root = Ok [])
  ∧ (wf_index binary_packages →
     acyclic binary_packages ignore_deps →
     closed_from binary_packages ignore_deps root →
     ∃ all,
       preorder binary_packages ignore_deps (depends root) all
       ∧ (∀ depth, size binary_packages ≤ depth →
            get_unique_dependents depth binary_packages ignore_deps root
              = Ok (first_by_name all))
       ∧ (∀ depth resolved,
            get_unique_dependents depth binary_packages ignore_deps root
              = Ok resolved →
            resolved = first_by_name all)
       ∧ NoDup (first_by_name all)
       ∧ NoDup (name <$> first_by_name all)
       ∧ (∀ q, q ∈ first_by_name all ↔
                 reachable binary_packages ignore_deps root q)
       ∧ (∀ q, q ∈ first_by_name all →
            ∃ dep_name,
              (dep_name ∉ ignore_deps)
              ∧ lookup_dep binary_packages dep_name = Ok q
              ∧ (name q ∈ ignore_deps →
                 binary_packages !! dep_name = None
                 ∧ name q = dep_name +:+ "-git"))).
Proof.
  split.
  { intros Hdeps depth. unfold get_unique_dependents.
    rewrite get_all_dependents_unfold, Hdeps. reflexivity. }
  intros Hwf Hacyclic Hclosed.
  destruct (get_all_dependents_terminates binary_packages ignore_deps
              (size binary_packages) root) as [all Hall]; [done..|].
  assert (∀ q, q ∈ first_by_name all ↔
               reachable binary_packages ignore_deps root q) as Helem.
  { intros q. rewrite <-(get_all_dependents_elem _ _ _ _ _ _ Hall). split.
    - apply first_by_name_elem.
    - intros Hq. destruct (first_by_name_complete _ _ Hq) as (q' & Hq' & Hname).
      assert (q' = q) as <-; [|done].
      apply first_by_name_elem in Hq'.
      apply (get_all_dependents_elem _ _ _ _ _ _ Hall), reachable_in_index
        in Hq as [key Hkey], Hq' as [key' Hkey'].
      pose proof (Hwf _ _ Hkey). pose proof (Hwf _ _ Hkey'). congruence. }
  exists all. split; [by eapply get_all_dependents_preorder|].
  split; [|split; [|split; [|split; [|split]]]].
  - intros depth Hdepth. apply get_unique_dependents_Ok.
    by eapply get_all_dependents_mono.
  - intros depth resolved. unfold get_unique_dependents.
    destruct (get_all_dependents depth _ _ root) as [all'|] eqn:Hall'; [|done].
    simpl. intros [= <-]. rewrite unique_by_name_first.
    apply (get_all_dependents_mono _ _ _ (depth `max` size binary_packages))
      in Hall, Hall'; [|lia..].
    congruence.
  - eapply NoDup_fmap_1, first_by_name_NoDup.
  - apply first_by_name_NoDup.
  - done.
  - intros q [dep_name [Hign Hq]]%Helem%reachable_last_edge.
    exists dep_name. do 2 (split; [done|]). intros Hname.
    apply lookup_dep_Ok in Hq as [Hq|[Hnone Hq]].
    + apply Hwf in Hq. congruence.
    + apply Hwf in Hq. done.
Qed.

(** The scenario of the specification: [A] depends on [B], [B] on [C], and
    [C] is ignored; resolving [A] yields [B] alone. *)
Lemma get_unique_dependents_resolves_witness :
  get_unique_dependents 0 example_index [] (example_node "C" []) = Ok []
  ∧ ∃ all,
      (∀ depth, size example_index ≤ depth →
         get_unique_dependents depth example_index ["C"]
           (example_node "A" ["B"]) = Ok (first_by_name all))
      ∧ name <$> first_by_name all = ["B"].
Proof.
  split.
  { apply (proj1 (get_unique_dependents_resolves example_index []
                    (example_node "C" []))). reflexivity. }
  destruct (proj2 (get_unique_dependents_resolves example_index ["C"]
                     (example_node "A" ["B"])))
    as (all & _ & Hall & _).
  - apply keyed_by_name_wf. vm_compute. reflexivity.
  - apply (rank_decreases_acyclic _ _ example_rank). vm_compute. reflexivity.
  - apply all_resolve_closed_from. vm_compute. reflexivity.
  - exists all. split; [done|].
    transitivity
      (match get_unique_dependents 3 example_index ["C"]
               (example_node "A" ["B"]) with
       | Ok resolved => name <$> resolved
       | Err _ => []
       end).
    + rewrite (Hall 3); [done|]. vm_compute. lia.
    + vm_compute. reflexivity.
Defined.

(** C1 as stated fails: the package that the [-git] fallback resolves is
    listed although its name is in the ignore set. *)
Lemma get_unique_dependents_ignored_name_listed :
  ¬ (∀ depth binary_packages ignore_deps root resolved,
       wf_index binary_packages →
       acyclic binary_packages ignore_deps →
       get_unique_dependents depth binary_packages ignore_deps root
         = Ok resolved →
       ∀ q, q ∈ resolved → name q ∉ ignore_deps).
Proof.
  intros Hclaim.
  apply (Hclaim 1 fallback_index ["foo-git"] (example_node "a" ["foo"])
           [example_node "foo-git" []]) with (q := example_node "foo-git" []).
  - apply keyed_by_name_wf. vm_compute. reflexivity.
  - apply (rank_decreases_acyclic _ _ example_rank). vm_compute. reflexivity.
  - vm_compute. reflexivity.
  - by left.
  - vm_compute. by left.
Qed.

(** C4, as amended: the walk has no cycle guard.  When a cycle can be
    reached from the root, no recursion bound lets the resolution return a
    list: it raises, and when every dependency name resolves what it raises
    is the [RecursionError] of the exhausted bound. *)
Theorem get_unique_dependents_cycle binary_packages ignore_deps root :
  cyclic_from binary_packages ignore_deps root →
  ∀ depth,
    ∃ e, get_unique_dependents depth binary_packages ignore_deps root = Err e
         ∧ (closed_from binary_packages ignore_deps root →
            e = RecursionError).
Proof.
  intros (q & Hrtc & Hcycle) depth. unfold get_unique_dependents.
  destruct (get_all_dependents depth binary_packages ignore_deps root)
    as [all|e] eqn:Hall.
  - destruct (get_all_dependents_cycle _ _ depth _ _ Hrtc Hcycle).
    by exists all.
  - exists e. split; [done|]. intros Hclosed.
    by eapply get_all_dependents_closed_Err.
Qed.

Lemma cyclic_index_cyclic :
  cyclic_from cyclic_index [] (example_node "a" ["b"]).
Proof.
  exists (example_node "a" ["b"]). split; [done|].
  apply tc_l with (example_node "b" ["a"]); [|apply tc_once].
  - exists "b", "". split; [by left|]. split; [apply not_elem_of_nil|done].
  - exists "a", "". split; [by left|]. split; [apply not_elem_of_nil|done].
Qed.

Lemma get_unique_dependents_cycle_witness :
  get_unique_dependents 1000 cyclic_index [] (example_node "a" ["b"])
    = Err RecursionError.
Proof.
  destruct (get_unique_dependents_cycle cyclic_index []
              (example_node "a" ["b"]) cyclic_index_cyclic 1000)
    as (e & -> & He).
  rewrite He; [done|]. apply all_resolve_closed_from. vm_compute. reflexivity.
Defined.

(** C4 as stated fails: on the index in which [a] and [b] depend on each
    other no recursion bound ends the resolution with any other error than
    the exhausted bound itself. *)
Lemma get_unique_dependents_no_cycle_guard :
  ¬ (∀ binary_packages ignore_deps root,
       cyclic_from binary_packages ignore_deps root →
       ∃ depth e,
         get_unique_dependents depth binary_packages ignore_deps root = Err e
         ∧ e ≠ RecursionError).
Proof.
  intros Hclaim.
  destruct (Hclaim cyclic_index [] (example_node "a" ["b"])
              cyclic_index_cyclic) as (depth & e & He & Hguard).
  apply Hguard. unfold get_unique_dependents in He.
  destruct (get_all_dependents depth cyclic_index [] _) as [all|e'] eqn:Hall;
    [done|].
  injection He as <-. eapply get_all_dependents_closed_Err; [|done].
  apply all_resolve_closed_from. vm_compute. reflexivity.
Qed.

(** Ignoring dependencies only removes edges: an index whose whole
    dependency graph is acyclic stays acyclic when dependencies are
    ignored. *)
Lemma reachable_ignore binary_packages ignore_deps p q :
  reachable binary_packages ignore_deps p q → reachable binary_packages [] p q.
Proof.
  assert (∀ p q, dep_edge binary_packages ignore_deps p q →
                 dep_edge binary_packages [] p q) as Hedge.
  { clear p q. intros p q (dn & dr & Hin & _ & Hq). exists dn, dr.
    split; [done|]. split; [apply not_elem_of_nil|done]. }
  induction 1 as [p q Hpq|p p' q Hpp' _ IH].
  - apply tc_once. by apply Hedge.
  - eapply tc_l; [by apply Hedge|done].
Qed.

Lemma acyclic_ignore binary_packages ignore_deps :
  acyclic binary_packages [] → acyclic binary_packages ignore_deps.
Proof. intros Hacyclic p Hcycle. by eapply Hacyclic, reachable_ignore. Qed.

(** ** The functions on examples *)

Example rpartition_examples :
  Py.rpartition "/" "https://github.com/x/y.git"
    = ("https://github.com/x", "/", "y.git")
  ∧ Py.rpartition ".git" "https://github.com/x/y.git"
    = ("https://github.com/x/y", ".git", "")
  ∧ Py.rpartition "/" "y.git" = ("", "", "y.git")
  ∧ Py.partition "@" "openssl@1.1" = ("openssl", "@", "1.1")
  ∧ Py.partition "@" "pcre" = ("pcre", "", "")
  ∧ Py.strip "/" "/a/b//" = "a/b".
Proof. by repeat split. Qed.

Example os_path_examples :
  os_path.join "inst" "lib/" = "inst/lib/"
  ∧ os_path.join "inst/" "lib" = "inst/lib"
  ∧ os_path.join "inst" "/abs" = "/abs"
  ∧ os_path.join "inst/lib/" "libz.so" = "inst/lib/libz.so"
  ∧ os_path.basename "xz/lib/libz.so" = "libz.so"
  ∧ os_path.basename "xz/lib/" = ""
  ∧ os_path.dirname "inst/lib/libz.so" = "inst/lib"
  ∧ os_path.dirname "inst/lib/" = "inst/lib".
Proof. by repeat split. Qed.

Example from_index_examples :
  Download_from_index "https://github.com/x/y.git" (Some "1.0") None None
    = Ok (Some {| url := "https://github.com/x/y/archive/1.0.tar.gz";
                  file_name := "y-1.0.tar.gz";
                  sha256 := None; fetched_location := None |})
  ∧ Download_from_index "https://www.clamav.net/downloads/clamav-0.102.2.tar.gz"
      None None None
    = Ok (Some {| url := "https://www.clamav.net/downloads/clamav-0.102.2.tar.gz";
                  file_name := "clamav-0.102.2.tar.gz";
                  sha256 := None; fetched_location := None |})
  ∧ Download_from_index "https://gitlab.com/x/y.git" None (Some "abc123") None
    = Err (AssertionError "Invalid https://gitlab.com/x/y.git").
Proof. by repeat split. Qed.

Example get_formula_source_urls_example :
  get_formula_source_urls
    [url_line "https://example.org/a.tar.gz"; "  sha256 0123";
     url_line "https://example.org/b.git"; url_line "https://example.org/c.zip";
     "  homepage https://example.org/d.zip"]
  = ["https://example.org/a.tar.gz"; "https://example.org/c.zip"].
Proof. reflexivity. Qed.

(** The walk over the chain [A -> B -> C], with and without [C] ignored. *)
Example get_unique_dependents_chain :
  (λ l : list BinaryPackage, name <$> l)
    <$> get_unique_dependents 3 example_index [] (example_node "A" ["B"])
  = Ok ["B"; "C"]
  ∧ (λ l : list BinaryPackage, name <$> l)
      <$> get_unique_dependents 3 example_index ["C"] (example_node "A" ["B"])
    = Ok ["B"].
Proof. split; vm_compute; reflexivity. Qed.

(** The walk over the diamond meets [E] twice and lists it once, where it
    was met first. *)
Example get_unique_dependents_diamond :
  (λ l : list BinaryPackage, name <$> l)
    <$> get_all_dependents 3 diamond_index [] (example_node "D" ["B"; "C"])
  = Ok ["B"; "E"; "C"; "E"]
  ∧ (λ l : list BinaryPackage, name <$> l)
      <$> get_unique_dependents 3 diamond_index []
            (example_node "D" ["B"; "C"])
    = Ok ["B"; "E"; "C"].
Proof. split; vm_compute; reflexivity. Qed.

(** A recursion bound below the depth of the chain is exhausted. *)
Example get_unique_dependents_shallow :
  get_unique_dependents 0 example_index [] (example_node "A" ["B"])
    = Err RecursionError
  ∧ get_unique_dependents 3 example_index [] (example_node "A" ["missing"])
    = Err (KeyError "missing-git").
Proof. split; vm_compute; reflexivity. Qed.

(** * Further properties of the code *)

(** ** More on the string primitives *)

Lemma rev_app_rev_app s t u :
  String.rev_app (String.rev_app s t) u = String.rev_app t (s +:+ u).
Proof.
  revert t u. induction s as [|a s IH]; intros t u; [done|].
  cbn [String.rev_app]. by rewrite IH.
Qed.

Lemma append_cons a s t : String a s +:+ t = String a (s +:+ t).
Proof. reflexivity. Qed.

Lemma append_nil_l s : "" +:+ s = s.
Proof. reflexivity. Qed.

Lemma append_nil_r s : s +:+ "" = s.
Proof. induction s as [|a s IH]; [done|]. by rewrite append_cons, IH. Qed.

Lemma append_assoc s t u : (s +:+ t) +:+ u = s +:+ t +:+ u.
Proof. induction s as [|a s IH]; [done|]. by rewrite !append_cons, IH. Qed.

Lemma rev_involutive s : String.rev (String.rev s) = s.
Proof.
  unfold String.rev. rewrite rev_app_rev_app. cbn [String.rev_app].
  apply append_nil_r.
Qed.

Lemma rev_app_append s t : String.rev_app s t = String.rev s +:+ t.
Proof.
  unfold String.rev. revert t. induction s as [|a s IH]; intros t; [done|].
  cbn [String.rev_app]. rewrite IH, (IH (String a "")).
  by rewrite append_assoc, append_cons, append_nil_l.
Qed.

Lemma rev_append s t : String.rev (s +:+ t) = String.rev t +:+ String.rev s.
Proof.
  induction s as [|a s IH].
  { by rewrite append_nil_l, append_nil_r. }
  rewrite append_cons. unfold String.rev at 1 3. cbn [String.rev_app].
  by rewrite (rev_app_append (s +:+ t)), (rev_app_append s), IH, append_assoc.
Qed.

Lemma startswith_append p q : Py.startswith p (p +:+ q) = true.
Proof.
  induction p as [|a p IH]; [by destruct q|].
  rewrite append_cons. cbn [Py.startswith]. by rewrite decide_True.
Qed.

Lemma startswith_inv p s :
  Py.startswith p s = true → ∃ q, s = p +:+ q.
Proof.
  revert s. induction p as [|a p IH]; intros s; [by exists s|].
  destruct s as [|b s]; [done|]. cbn [Py.startswith].
  destruct (decide (a = b)) as [->|]; [|done].
  intros [q ->]%IH. by exists q.
Qed.

Lemma endswith_append s suf : Py.endswith suf (s +:+ suf) = true.
Proof. unfold Py.endswith. rewrite rev_append. apply startswith_append. Qed.

Lemma endswith_inv suf s :
  Py.endswith suf s = true → ∃ q, s = q +:+ suf.
Proof.
  unfold Py.endswith. intros [q Hq]%startswith_inv. exists (String.rev q).
  by rewrite <-(rev_involutive s), Hq, rev_append, rev_involutive.
Qed.

(** What [lstrip] leaves does not start with a stripped character, and is
    the end of the string. *)
Lemma lstrip_head chars s c s' :
  Py.lstrip chars s = String c s' → Py.mem_char c chars = false.
Proof.
  induction s as [|a s IH]; [done|]. cbn [Py.lstrip].
  destruct (Py.mem_char a chars) eqn:Ha; [done|]. by intros [= <- _].
Qed.

Lemma lstrip_suffix chars s : ∃ z, s = z +:+ Py.lstrip chars s.
Proof.
  induction s as [|a s [z IH]]; [by exists ""|]. cbn [Py.lstrip].
  destruct (Py.mem_char a chars); [|by exists ""].
  exists (String a z). by rewrite append_cons, <-IH.
Qed.

Lemma lstrip_id chars c s :
  Py.mem_char c chars = false → Py.lstrip chars (String c s) = String c s.
Proof. intros Hc. cbn [Py.lstrip]. by rewrite Hc. Qed.

Lemma rstrip_prefix chars s : ∃ z, s = Py.rstrip chars s +:+ z.
Proof.
  unfold Py.rstrip. destruct (lstrip_suffix chars (String.rev s)) as [z Hz].
  exists (String.rev z).
  by rewrite <-rev_append, <-Hz, rev_involutive.
Qed.

Lemma rstrip_last chars s c :
  Py.endswith (String c "") (Py.rstrip chars s) = true →
  Py.mem_char c chars = false.
Proof.
  unfold Py.endswith, Py.rstrip. rewrite rev_involutive.
  change (String.rev (String c "")) with (String c "").
  destruct (Py.lstrip chars (String.rev s)) as [|a t] eqn:Hstrip; [done|].
  cbn [Py.startswith]. destruct (decide (c = a)) as [->|]; [|done]. intros _.
  by eapply lstrip_head.
Qed.

(** A string that ends with a suffix whose last character is not stripped
    is left as it is by [rstrip]. *)
Lemma rstrip_id chars s c suf :
  Py.mem_char c chars = false →
  Py.rstrip chars (s +:+ suf +:+ String c "") = s +:+ suf +:+ String c "".
Proof.
  intros Hc. unfold Py.rstrip.
  rewrite <-append_assoc, rev_append.
  change (String.rev (String c "")) with (String c "").
  rewrite append_cons, append_nil_l, lstrip_id by done.
  change (String c (String.rev (s +:+ suf)))
    with (String.rev (String c "") +:+ String.rev (s +:+ suf)).
  by rewrite <-rev_append, rev_involutive.
Qed.

Lemma strip_no_head chars s c s' :
  Py.strip chars s = String c s' → Py.mem_char c chars = false.
Proof.
  unfold Py.strip. intros Hstrip.
  destruct (rstrip_prefix chars (Py.lstrip chars s)) as [z Hz].
  rewrite Hstrip, append_cons in Hz. by eapply lstrip_head.
Qed.

Lemma strip_slash_startswith s : Py.startswith "/" (Py.strip "/" s) = false.
Proof.
  destruct (Py.strip "/" s) as [|c s'] eqn:Hstrip; [done|].
  apply strip_no_head in Hstrip. cbn [Py.startswith].
  destruct (decide ("/"%char = c)) as [<-|]; done.
Qed.

Lemma strip_slash_endswith s : Py.endswith "/" (Py.strip "/" s) = false.
Proof.
  destruct (Py.endswith "/" (Py.strip "/" s)) eqn:Hends; [|done].
  by apply rstrip_last in Hends.
Qed.

(** ** class Download *)

(** X1: the URL of a download never starts or ends with a separator; a file
    name that is not given (absent or empty) is the final segment of that
    URL and holds no separator; a file name that is given is kept. *)
Theorem Download_init_spec url0 file_name0 sha :
  let d := Download_init url0 file_name0 sha in
  Py.startswith "/" (url d) = false
  ∧ Py.endswith "/" (url d) = false
  ∧ (Py.truthy file_name0 = false →
     file_name d = last_segment (url d)
     ∧ Py.contains "/" (file_name d) = false)
  ∧ (∀ f, file_name0 = Some f → f ≠ "" → file_name d = f)
  ∧ sha256 d = sha ∧ fetched_location d = None.
Proof.
  cbn zeta. unfold Download_init. cbn [url file_name sha256 fetched_location].
  split; [apply strip_slash_startswith|].
  split; [apply strip_slash_endswith|].
  split; [|split; [|done]].
  - intros Hfalsy.
    assert (match file_name0 with
            | Some f =>
                if bool_decide (f = "")
                then (Py.rpartition "/" (Py.strip "/" url0)).2 else f
            | None => (Py.rpartition "/" (Py.strip "/" url0)).2
            end = last_segment (Py.strip "/" url0)) as ->.
    { destruct file_name0 as [[|c f]|]; [| done |];
        apply rpartition_slash_last_segment. }
    split; [done|]. apply last_segment_no_slash.
  - intros f -> Hf. by rewrite bool_decide_false.
Qed.

Lemma Download_init_spec_witness :
  file_name (Download_init "//example.org/dl/xz-5.2.5.tar.gz/" (Some "") None)
    = "xz-5.2.5.tar.gz"
  ∧ file_name (Download_init "https://example.org/dl/1" (Some "xz.tgz") None)
    = "xz.tgz".
Proof.
  pose proof (Download_init_spec "//example.org/dl/xz-5.2.5.tar.gz/"
                (Some "") None) as (_ & _ & Hdefault & _).
  pose proof (Download_init_spec "https://example.org/dl/1"
                (Some "xz.tgz") None) as (_ & _ & _ & Hgiven & _).
  split.
  - rewrite (proj1 (Hdefault eq_refl)). reflexivity.
  - apply Hgiven; [reflexivity|discriminate].
Defined.

Lemma lstrip_append_keep chars x c t :
  Py.mem_char c chars = false →
  ∃ y, Py.lstrip chars (x +:+ String c t) = y +:+ String c t.
Proof.
  intros Hc. induction x as [|a x [y IH]].
  { exists "". by rewrite !append_nil_l, lstrip_id. }
  rewrite append_cons. cbn [Py.lstrip].
  destruct (Py.mem_char a chars); [by exists y|].
  exists (String a x). by rewrite append_cons.
Qed.

Lemma strip_slash_tar_gz x :
  Py.endswith ".tar.gz" (Py.strip "/" (x +:+ ".tar.gz")) = true.
Proof.
  unfold Py.strip.
  destruct (lstrip_append_keep "/" x "."%char "tar.gz") as [y ->]; [done|].
  change (y +:+ ".tar.gz") with (y +:+ ".tar.g" +:+ "z").
  rewrite rstrip_id by done.
  change (y +:+ ".tar.g" +:+ "z") with (y +:+ ".tar.gz").
  apply endswith_append.
Qed.

Lemma append_nonnil s c t : s +:+ String c t ≠ "".
Proof. by destruct s. Qed.

(** X2: a record with a tag or a revision gives one of two outcomes: the
    URL is not under [https://github.com] and the assertion fails, or a
    download is returned whose URL and file name both end in [.tar.gz] and
    whose checksum is the one of the record. *)
Theorem from_index_commitish_outcome url0 tag revision sha :
  Py.truthy tag || Py.truthy revision = true →
  (Py.startswith "https://github.com" (Py.strip "/" url0) = false
   ∧ Download_from_index url0 tag revision sha
     = Err (AssertionError ("Invalid " +:+ Py.strip "/" url0)))
  ∨ (Py.startswith "https://github.com" (Py.strip "/" url0) = true
     ∧ ∃ d, Download_from_index url0 tag revision sha = Ok (Some d)
            ∧ Py.endswith ".tar.gz" (url d) = true
            ∧ Py.endswith ".tar.gz" (file_name d) = true
            ∧ sha256 d = sha).
Proof.
  intros Hcommitish. unfold Download_from_index.
  assert (negb (Py.truthy tag) && negb (Py.truthy revision) = false) as ->
    by (by destruct (Py.truthy tag), (Py.truthy revision)).
  destruct (Py.startswith "https://github.com" (Py.strip "/" url0));
    [right|by left].
  split; [done|]. cbn [negb]. cbv zeta. eexists. split; [done|].
  unfold Download_init. cbn [url file_name sha256].
  split; [|split; [|done]].
  - rewrite <-!append_assoc. apply strip_slash_tar_gz.
  - match goal with
    | |- context [bool_decide (?f = "")] =>
        destruct (bool_decide (f = "")) eqn:Hnil
    end.
    + apply bool_decide_eq_true in Hnil. by apply append_nonnil in Hnil.
    + rewrite <-!append_assoc. apply endswith_append.
Qed.

Lemma from_index_commitish_outcome_witness :
  Download_from_index "https://gitlab.com/x/y.git" (Some "1.0") None None
    = Err (AssertionError "Invalid https://gitlab.com/x/y.git")
  ∧ ∃ d, Download_from_index "https://github.com/x/y" (Some "1.0") None
           (Some "0123") = Ok (Some d)
         ∧ Py.endswith ".tar.gz" (url d) = true.
Proof.
  split.
  - destruct (from_index_commitish_outcome "https://gitlab.com/x/y.git"
                (Some "1.0") None None) as [[_ Herr]|[Hgithub _]].
    + reflexivity.
    + exact Herr.
    + discriminate Hgithub.
  - destruct (from_index_commitish_outcome "https://github.com/x/y"
                (Some "1.0") None (Some "0123")) as [[Hother _]|[_ Hd]].
    + reflexivity.
    + discriminate Hother.
    + destruct Hd as (d & Hd & Hurl & _). by exists d.
Defined.

(** ** BinaryPackage.from_index *)

Lemma contains_char_cons c a s :
  Py.contains (String c "") (String a s)
    = bool_decide (c = a) || Py.contains (String c "") s.
Proof.
  cbn [Py.contains Py.startswith].
  by destruct (decide (c = a)); [rewrite bool_decide_true|rewrite bool_decide_false].
Qed.

(** The split around the first occurrence of a one-character separator. *)
Lemma find_first_char c s :
  match Py.find_first (String c "") s with
  | Some (h, t) =>
      s = h +:+ String c t ∧ Py.contains (String c "") h = false
  | None => Py.contains (String c "") s = false
  end.
Proof.
  induction s as [|a s IH]; [done|].
  cbn [Py.find_first Py.startswith]. rewrite contains_char_cons.
  destruct (decide (c = a)) as [<-|Hne]; [done|].
  rewrite bool_decide_false by done.
  destruct (Py.find_first (String c "") s) as [[h t]|]; [|done].
  destruct IH as [-> Hh]. rewrite contains_char_cons, bool_decide_false by done.
  done.
Qed.

Lemma partition_at dep :
  let '(dname, _, dversion) := Py.partition "@" dep in
  Py.contains "@" dname = false
  ∧ (Py.contains "@" dep = false ∧ dname = dep ∧ dversion = ""
     ∨ dep = dname +:+ "@" +:+ dversion).
Proof.
  unfold Py.partition. pose proof (find_first_char "@"%char dep) as Hfind.
  destruct (Py.find_first "@" dep) as [[h t]|]; [|by auto].
  destruct Hfind as [-> Hh]. split; [done|]. by right.
Qed.

(** X3: a dependency of the index is split at its first [@]: the name holds
    no [@]; an entry without [@] is the name, with an empty version hint; any
    other entry is the name, an [@] and the version hint.  Names and hints
    come in the order of the entries. *)
Theorem parse_depends_spec dependencies :
  length (parse_depends dependencies) = length dependencies
  ∧ ∀ i dname dversion,
      parse_depends dependencies !! i = Some (dname, dversion) →
      Py.contains "@" dname = false
      ∧ ∃ dep, dependencies !! i = Some dep
          ∧ (Py.contains "@" dep = false ∧ dname = dep ∧ dversion = ""
             ∨ dep = dname +:+ "@" +:+ dversion).
Proof.
  unfold parse_depends. split; [apply length_fmap|].
  intros i dname dversion. rewrite list_lookup_fmap.
  destruct (dependencies !! i) as [dep|]; [|done]. simpl.
  pose proof (partition_at dep) as Hdep.
  destruct (Py.partition "@" dep) as [[dname' sep] dversion'].
  intros [= <- <-]. destruct Hdep as [Hname Hdep]. split; [done|].
  by exists dep.
Qed.

Lemma parse_depends_spec_witness :
  ∃ dep, ["json-c"; "openssl@1.1"] !! 1 = Some dep
    ∧ (Py.contains "@" dep = false ∧ "openssl" = dep ∧ "1.1" = ""
       ∨ dep = "openssl" +:+ "@" +:+ "1.1").
Proof.
  exact (proj2 (proj2 (parse_depends_spec ["json-c"; "openssl@1.1"])
                  1 "openssl" "1.1" eq_refl)).
Defined.

Lemma str_of_int_nonnil n : Py.str_of_int n ≠ "".
Proof.
  unfold Py.str_of_int. destruct (Z.to_int n) as [d|d]; [|done].
  by destruct d.
Qed.

Lemma bind_Ok {A B} (r : result A) (k : A → result B) b :
  r ≫= k = Ok b → ∃ a, r = Ok a ∧ k a = Ok b.
Proof. destruct r as [a|e]; [|done]. by exists a. Qed.

Lemma getitem_Ok {A} key (o : option A) a : getitem key o = Ok a → o = Some a.
Proof. by destruct o; intros [= ->]. Qed.

(** What a successfully parsed record tells about the package. *)
Lemma BinaryPackage_from_index_inv item repo p :
  BinaryPackage_from_index item repo = Ok p →
  ∃ name0 version0 revision0 source_url u sdu files download_urls0
    dependencies,
    item_name item = Some name0
    ∧ item_versions_stable item = Some version0
    ∧ item_revision item = Some revision0
    ∧ item_urls_stable item = Some source_url
    ∧ su_url source_url = Some u
    ∧ Download_from_index u (su_tag source_url) (su_revision source_url)
        (su_sha256 source_url) = Ok sdu
    ∧ item_bottle_files item = Some files
    ∧ bottle_downloads (repo_name repo) files ∅ = Ok download_urls0
    ∧ item_dependencies item = Some dependencies
    ∧ p = BinaryPackage_init name0 version0
            (if bool_decide (revision0 = 0%Z) then ""
             else Py.str_of_int revision0)
            download_urls0
            (Download_init (Py.format1 (formula_base_url repo) name0)
               None None)
            [sdu] (parse_depends dependencies).
Proof.
  unfold BinaryPackage_from_index.
  intros (name0 & Hname%getitem_Ok & H)%bind_Ok.
  apply bind_Ok in H as (version0 & Hversion%getitem_Ok & H).
  apply bind_Ok in H as (revision0 & Hrevision%getitem_Ok & H).
  apply bind_Ok in H as (source_url & Hsource%getitem_Ok & H).
  apply bind_Ok in H as (u & Hu & H).
  apply bind_Ok in H as (sdu & Hsdu & H).
  apply bind_Ok in H as (files & Hfiles%getitem_Ok & H).
  apply bind_Ok in H as (download_urls0 & Hdownloads & H).
  apply bind_Ok in H as (dependencies & Hdeps%getitem_Ok & H).
  injection H as <-.
  exists name0, version0, revision0, source_url, u, sdu, files,
    download_urls0, dependencies.
  repeat (split; [done|]).
  split; [by destruct (su_url source_url); simplify_eq|].
  done.
Qed.

Lemma Download_from_index_not_None url0 tag revision sha :
  Download_from_index url0 tag revision sha ≠ Ok None.
Proof.
  unfold Download_from_index.
  destruct (negb (Py.truthy tag) && negb (Py.truthy revision)); [done|].
  by destruct (negb (Py.startswith _ _)).
Qed.

(** X4: the full version of a package built from the index is its stable
    version when the revision of the record is 0, and the version, an
    underscore and the revision in decimal otherwise; the qualified name is
    the name, an [@] and the full version. *)
Theorem BinaryPackage_from_index_fullversion item repo p :
  BinaryPackage_from_index item repo = Ok p →
  ∃ revision0,
    item_revision item = Some revision0
    ∧ fullversion p
      = (if bool_decide (revision0 = 0%Z) then version p
         else version p +:+ "_" +:+ Py.str_of_int revision0)
    ∧ fqname p = name p +:+ "@" +:+ fullversion p.
Proof.
  intros (name0 & version0 & revision0 & source_url & u & sdu & files
          & download_urls0 & dependencies & _ & _ & Hrevision & _ & _ & _ & _
          & _ & _ & ->)%BinaryPackage_from_index_inv.
  exists revision0. split; [done|].
  cbn [fullversion fqname name version BinaryPackage_init].
  destruct (bool_decide (revision0 = 0%Z)); [done|].
  by rewrite bool_decide_false by apply str_of_int_nonnil.
Qed.

Lemma BinaryPackage_from_index_fullversion_witness :
  ∃ p, BinaryPackage_from_index (example_item "xz" []) example_repository = Ok p
       ∧ fullversion p = "1.0" ∧ fqname p = "xz@1.0".
Proof.
  eexists. split; [reflexivity|].
  match goal with
  | |- fullversion ?p = _ ∧ _ =>
      destruct (BinaryPackage_from_index_fullversion (example_item "xz" [])
                  example_repository p eq_refl)
        as (revision0 & Hrevision & Hfull & Hfq)
  end.
  injection Hrevision as <-. split; [exact Hfull|].
  rewrite Hfq, Hfull. reflexivity.
Defined.

(** ** The source downloads of a package *)

Lemma known_urls_of_Some downloads :
  known_urls_of (Some <$> downloads) = Ok (url <$> downloads).
Proof.
  induction downloads as [|d downloads IH]; [done|].
  cbn [fmap list_fmap known_urls_of]. by rewrite IH.
Qed.

(** X5: a package built from the index holds exactly one source download,
    never [None]; scanning formula files keeps it that way, so the scan never
    raises on such a package, keeps the downloads it found and adds only
    downloads of URLs that the formula declares. *)
Theorem BinaryPackage_from_index_sources item repo p :
  BinaryPackage_from_index item repo = Ok p →
  ∃ d, source_download_urls p = [Some d]
    ∧ ∀ formula,
        ∃ added,
          add_formula_source_download_urls p formula
            = Ok (set_source_download_urls p (Some <$> d :: added))
          ∧ ∀ d', d' ∈ added →
              ∃ u, u ∈ get_formula_source_urls formula
                   ∧ u ≠ url d ∧ d' = Download_init u None None.
Proof.
  intros (name0 & version0 & revision0 & source_url & u & sdu & files
          & download_urls0 & dependencies & _ & _ & _ & _ & _ & Hsdu & _
          & _ & _ & Hp)%BinaryPackage_from_index_inv.
  destruct sdu as [d|]; [|by apply Download_from_index_not_None in Hsdu].
  exists d. assert (source_download_urls p = [Some d]) as Hsources
    by (by rewrite Hp).
  split; [done|]. intros formula.
  exists ((λ u, Download_init u None None)
            <$> filter (.∉ [url d]) (get_formula_source_urls formula)).
  split.
  - unfold add_formula_source_download_urls. rewrite Hsources.
    cbn [known_urls_of mbind result_bind]. rewrite add_urls_spec.
    cbn [fmap list_fmap app]. by rewrite <-list_fmap_compose.
  - intros d' (u' & -> & [Hu' Hin]%list_elem_of_filter)%list_elem_of_fmap.
    exists u'. split; [done|]. split; [|done].
    intros ->. apply Hu'. by left.
Qed.

Lemma BinaryPackage_from_index_sources_witness :
  ∃ p d,
    BinaryPackage_from_index (example_item "xz" []) example_repository = Ok p
    ∧ source_download_urls p = [Some d].
Proof.
  eexists.
  match goal with
  | |- ∃ d, BinaryPackage_from_index ?item ?repo = Ok ?p ∧ _ =>
      unify p (match BinaryPackage_from_index item repo with
               | Ok p' => p'
               | Err _ => example_package
               end);
      destruct (BinaryPackage_from_index_sources item repo p eq_refl)
        as (d & Hd & _)
  end.
  exists d. split; [reflexivity|exact Hd].
Defined.

(** ** The bottle downloads of a package *)

Lemma bottle_downloads_spec repo_name0 files download_urls0 download_urls1 :
  bottle_downloads repo_name0 files download_urls0 = Ok download_urls1 →
  ∀ osarch d,
    download_urls1 !! osarch = Some d →
    download_urls0 !! osarch = Some d
    ∨ ∃ durl u sha,
        (osarch, durl) ∈ files ∧ bf_url durl = Some u
        ∧ bf_sha256 durl = Some sha
        ∧ Py.contains repo_name0 u = true
        ∧ d = Download_init u None (Some sha).
Proof.
  revert download_urls0.
  induction files as [|[osarch' durl] files IH]; intros download_urls0; simpl.
  { intros [= <-]. auto. }
  intros (u & Hu%getitem_Ok & H)%bind_Ok osarch d Hd.
  assert (∀ m, bottle_downloads repo_name0 files m = Ok download_urls1 →
               m !! osarch = Some d
               ∨ ∃ durl1 u1 sha1,
                   (osarch, durl1) ∈ (osarch', durl) :: files
                   ∧ bf_url durl1 = Some u1 ∧ bf_sha256 durl1 = Some sha1
                   ∧ Py.contains repo_name0 u1 = true
                   ∧ d = Download_init u1 None (Some sha1)) as IH'.
  { intros m Hm. destruct (IH _ Hm _ _ Hd) as [?|(durl' & u' & sha' & ? & ?)];
      [by left|right]. exists durl', u', sha'. split; [by right|done]. }
  destruct (Py.contains repo_name0 u) eqn:Hcontains; cbn [negb] in H.
  - apply bind_Ok in H as (sha & Hsha%getitem_Ok & H).
    destruct (IH' _ H) as [Hins|?]; [|by right].
    apply lookup_insert_Some in Hins as [[<- <-]|[_ ?]]; [|by left].
    right. exists durl, u, sha. split; [by left|done].
  - by apply IH'.
Qed.

(** X6: a package built from the index keeps, of the bottle files of its
    record, only those whose URL contains the name of the repository; each
    one it keeps is the download of that URL with the checksum of the
    record. *)
Theorem BinaryPackage_from_index_bottles item repo p osarch d :
  BinaryPackage_from_index item repo = Ok p →
  download_urls p !! osarch = Some d →
  ∃ files durl u sha,
    item_bottle_files item = Some files
    ∧ (osarch, durl) ∈ files
    ∧ bf_url durl = Some u ∧ bf_sha256 durl = Some sha
    ∧ Py.contains (repo_name repo) u = true
    ∧ d = Download_init u None (Some sha).
Proof.
  intros (name0 & version0 & revision0 & source_url & u & sdu & files
          & download_urls0 & dependencies & _ & _ & _ & _ & _ & _ & Hfiles
          & Hbottles & _ & ->)%BinaryPackage_from_index_inv Hd.
  cbn [download_urls BinaryPackage_init] in Hd.
  destruct (bottle_downloads_spec _ _ _ _ Hbottles _ _ Hd)
    as [Hempty|(durl & u' & sha & ?)].
  { by rewrite lookup_empty in Hempty. }
  by exists files, durl, u', sha.
Qed.

Lemma BinaryPackage_from_index_bottles_witness :
  download_urls mixed_package !! "catalina" = None
  ∧ ∃ files durl u sha,
      item_bottle_files mixed_item = Some files
      ∧ ("x86_64_linux", durl) ∈ files
      ∧ bf_url durl = Some u ∧ bf_sha256 durl = Some sha
      ∧ Py.contains "linuxbrew" u = true
      ∧ Download_init "https://linuxbrew.bintray.com/bottles/xz.tgz" None
          (Some "bb") = Download_init u None (Some sha).
Proof.
  split; [vm_compute; reflexivity|].
  apply (BinaryPackage_from_index_bottles mixed_item example_repository
           mixed_package "x86_64_linux").
  - reflexivity.
  - vm_compute. reflexivity.
Defined.

(** ** Loading the index *)

Lemma index_items_sound repo items packages0 key p :
  index_items repo items packages0 !! key = Some p →
  packages0 !! key = Some p
  ∨ name p = key
    ∧ ∃ item, item ∈ items ∧ BinaryPackage_from_index item repo = Ok p.
Proof.
  revert packages0. induction items as [|item items IH]; intros packages0;
    simpl; [by left|].
  destruct (BinaryPackage_from_index item repo) as [binary|] eqn:Hitem.
  - intros [Hins|(? & item' & ? & ?)]%IH.
    + apply lookup_insert_Some in Hins as [[<- <-]|[_ ?]]; [|by left].
      right. split; [done|]. exists item. split; [by left|done].
    + right. split; [done|]. exists item'. split; [by right|done].
  - intros [?|(? & item' & ? & ?)]%IH; [by left|].
    right. split; [done|]. exists item'. split; [by right|done].
Qed.

Lemma index_items_keeps repo items packages0 key :
  is_Some (packages0 !! key) →
  is_Some (index_items repo items packages0 !! key).
Proof.
  revert packages0. induction items as [|item items IH]; intros packages0;
    simpl; [done|].
  intros Hkey. destruct (BinaryPackage_from_index item repo) as [binary|];
    apply IH; [|done].
  rewrite lookup_insert_is_Some. destruct (decide (name binary = key)); auto.
Qed.

Lemma index_items_complete repo items packages0 item p :
  item ∈ items → BinaryPackage_from_index item repo = Ok p →
  is_Some (index_items repo items packages0 !! name p).
Proof.
  revert packages0. induction items as [|item' items IH]; intros packages0;
    [by intros ?%elem_of_nil|].
  intros [->|Hin]%elem_of_cons Hitem; simpl.
  - rewrite Hitem. apply index_items_keeps. by rewrite lookup_insert_eq.
  - destruct (BinaryPackage_from_index item' repo); by apply IH.
Qed.

(** X7: a call on a repository whose mapping is empty fetches the index
    once, with [force], into the file named after the repository, and
    returns the mapping it stores.  A record that does not parse is skipped
    and nothing else: every package of the mapping is the parse of a record
    and is stored under its name, and every record that parses has a package
    stored under its name. *)
Theorem update_packages_index_loads self cache_dir w items :
  packages self = ∅ →
  served w (db_url self) = Some items →
  ∃ m,
    update_packages_index self cache_dir w
      = (Ok m, set_packages self m,
         {| served := served w;
            fetched := fetched w ++
              [ {| fc_url := db_url self; fc_dir_location := cache_dir;
                   fc_file_name := "formula-" +:+ repo_name self +:+ ".json";
                   fc_force := true |} ] |})
    ∧ (∀ key p, m !! key = Some p →
         name p = key
         ∧ ∃ item, item ∈ items
             ∧ BinaryPackage_from_index item self = Ok p)
    ∧ (∀ item p, item ∈ items → BinaryPackage_from_index item self = Ok p →
         is_Some (m !! name p)).
Proof.
  intros Hempty Hserved.
  assert (∀ item, BinaryPackage_from_index item (set_packages self ∅)
                  = BinaryPackage_from_index item self) as Hrepo by done.
  exists (index_items (set_packages self ∅) items ∅). split; [|split].
  - unfold update_packages_index, fetch_index.
    rewrite bool_decide_false by (by intros []). cbn [fc_url].
    by rewrite Hserved.
  - intros key p [Hnone|(? & item & ? & Hitem)]%index_items_sound.
    { by rewrite lookup_empty in Hnone. }
    split; [done|]. exists item. by rewrite <-Hrepo.
  - intros item p Hin Hitem. apply (index_items_complete _ _ _ item); [done|].
    by rewrite Hrepo.
Qed.

(** A world that serves a record without a name between two good ones. *)
Lemma update_packages_index_loads_witness :
  ∃ m,
    (update_packages_index example_repository "cache"
       {| served u := Some [example_item "A" [];
                            {| item_name := None;
                               item_versions_stable := None;
                               item_revision := None;
                               item_urls_stable := None;
                               item_bottle_files := None;
                               item_dependencies := None |};
                            example_item "C" []];
          fetched := [] |}).1.1 = Ok m
    ∧ is_Some (m !! "A") ∧ is_Some (m !! "C").
Proof.
  destruct (update_packages_index_loads example_repository "cache"
              {| served u := Some [example_item "A" [];
                                   {| item_name := None;
                                      item_versions_stable := None;
                                      item_revision := None;
                                      item_urls_stable := None;
                                      item_bottle_files := None;
                                      item_dependencies := None |};
                                   example_item "C" []];
                 fetched := [] |} _ eq_refl eq_refl)
    as (m & -> & _ & Hcomplete).
  exists m. split; [reflexivity|]. split.
  - refine (Hcomplete (example_item "A" [])
              (match BinaryPackage_from_index (example_item "A" [])
                       example_repository with
               | Ok p => p
               | Err _ => example_package
               end) _ eq_refl).
    by left.
  - refine (Hcomplete (example_item "C" [])
              (match BinaryPackage_from_index (example_item "C" [])
                       example_repository with
               | Ok p => p
               | Err _ => example_package
               end) _ eq_refl).
    by do 2 right; left.
Defined.

(** ** The formula scanner *)

Lemma strip_archive_url u :
  Py.endswith_any good_extensions u = true →
  Py.strip "/" u = Py.lstrip "/" u.
Proof.
  unfold Py.endswith_any, good_extensions. cbn [existsb]. unfold Py.strip.
  rewrite !orb_true_iff.
  intros [[q ->]%endswith_inv|[[q ->]%endswith_inv|[[q ->]%endswith_inv
         |[[q ->]%endswith_inv|?]]]]; [| | | |done].
  - destruct (lstrip_append_keep "/" q "."%char "tar.gz") as [y ->]; [done|].
    change (y +:+ ".tar.gz") with (y +:+ ".tar.g" +:+ "z").
    by apply rstrip_id.
  - destruct (lstrip_append_keep "/" q "."%char "tar.xz") as [y ->]; [done|].
    change (y +:+ ".tar.xz") with (y +:+ ".tar.x" +:+ "z").
    by apply rstrip_id.
  - destruct (lstrip_append_keep "/" q "."%char "tar.bz2") as [y ->]; [done|].
    change (y +:+ ".tar.bz2") with (y +:+ ".tar.bz" +:+ "2").
    by apply rstrip_id.
  - destruct (lstrip_append_keep "/" q "."%char "zip") as [y ->]; [done|].
    change (y +:+ ".zip") with (y +:+ ".zi" +:+ "p").
    by apply rstrip_id.
Qed.

Lemma lstrip_slash_id u : Py.startswith "/" u = false → Py.lstrip "/" u = u.
Proof.
  destruct u as [|c u]; [done|]. cbn [Py.startswith]. intros Hc.
  apply lstrip_id. unfold Py.mem_char. apply bool_decide_eq_false.
  intros ->%list_elem_of_singleton. by rewrite decide_True in Hc.
Qed.

(** X8: every URL that the scanner yields ends in one of the four archive
    suffixes, was read off a line that starts with [url ] once its white
    space is stripped, and neither starts with a space or a double quote;
    the download made of it has the URL without its leading separators. *)
Theorem get_formula_source_urls_spec formula u :
  u ∈ get_formula_source_urls formula →
  Py.endswith_any good_extensions u = true
  ∧ (∃ line, line ∈ formula ∧ Py.startswith "url " (Py.strip_ws line) = true)
  ∧ Py.startswith " " u = false ∧ Py.startswith dquote u = false
  ∧ url (Download_init u None None) = Py.lstrip "/" u.
Proof.
  intros Hu.
  assert (Py.endswith_any good_extensions u = true
          ∧ (∃ line, line ∈ formula
               ∧ Py.startswith "url " (Py.strip_ws line) = true)
          ∧ ∃ s, u = Py.strip (" " +:+ dquote) s) as (Hext & Hline & s & Hs).
  { induction formula as [|line formula IH]; [by apply elem_of_nil in Hu|].
    cbn [get_formula_source_urls] in Hu.
    assert (u ∈ get_formula_source_urls formula →
            Py.endswith_any good_extensions u = true
            ∧ (∃ line0, line0 ∈ line :: formula
                 ∧ Py.startswith "url " (Py.strip_ws line0) = true)
            ∧ ∃ s, u = Py.strip (" " +:+ dquote) s) as IH'.
    { intros (? & (line0 & ? & ?) & ?)%IH. split; [done|]. split; [|done].
      exists line0. split; [by right|done]. }
    destruct (Py.startswith "url " (Py.strip_ws line)) eqn:Hurl; [|by apply IH'].
    destruct (Py.endswith_any good_extensions _) eqn:Hgood; [|by apply IH'].
    apply elem_of_cons in Hu as [->|Hu]; [|by apply IH'].
    split; [done|]. split; [|by eexists].
    exists line. split; [by left|done]. }
  split; [done|]. split; [done|].
  assert (∀ c, Py.mem_char c (" " +:+ dquote) = true →
               Py.startswith (String c "") u = false) as Hhead.
  { intros c Hc. destruct u as [|a u']; [done|]. symmetry in Hs.
    apply strip_no_head in Hs. cbn [Py.startswith].
    destruct (decide (c = a)) as [->|]; [congruence|done]. }
  split; [by apply Hhead|]. split; [by apply Hhead|].
  by apply strip_archive_url.
Qed.

Lemma get_formula_source_urls_spec_witness :
  url (Download_init "/mirror/fix.tar.xz" None None)
    = Py.lstrip "/" "/mirror/fix.tar.xz".
Proof.
  refine (proj2 (proj2 (proj2 (proj2
            (get_formula_source_urls_spec
               ["class Xz < Formula"; url_line "/mirror/fix.tar.xz"]
               "/mirror/fix.tar.xz" _))))).
  vm_compute. by left.
Defined.

(** ** Scanning a formula twice *)

Lemma known_urls_of_app downloads known_urls more :
  known_urls_of downloads = Ok known_urls →
  known_urls_of (downloads ++ (Some <$> more))
    = Ok (known_urls ++ (url <$> more)).
Proof.
  revert known_urls.
  induction downloads as [|[d|] downloads IH]; intros known_urls; simpl.
  - intros [= <-]. apply known_urls_of_Some.
  - intros (urls & Hurls & [= <-])%bind_Ok. by rewrite (IH urls).
  - done.
Qed.

Lemma filter_none {A} (P : A → Prop) `{!∀ x, Decision (P x)} (l : list A) :
  (∀ x, x ∈ l → ¬ P x) → filter P l = [].
Proof.
  induction l as [|x l IH]; [done|]. intros Hl.
  rewrite filter_cons_False by (apply Hl; by left).
  apply IH. intros y Hy. apply Hl. by right.
Qed.

(** X9: scanning the same formula file a second time adds nothing, as long
    as no URL it declares starts with a separator: the package after the
    second scan is the package after the first. *)
Theorem add_formula_source_download_urls_rescan self formula p1 :
  add_formula_source_download_urls self formula = Ok p1 →
  Forall (λ u, Py.startswith "/" u = false) (get_formula_source_urls formula) →
  add_formula_source_download_urls p1 formula = Ok p1.
Proof.
  unfold add_formula_source_download_urls.
  intros (known_urls & Hknown & [= <-])%bind_Ok Hurls.
  cbn [source_download_urls set_source_download_urls].
  set (urls := get_formula_source_urls formula) in *.
  set (new := filter (.∉ known_urls) urls).
  assert (add_urls known_urls urls (source_download_urls self)
          = source_download_urls self
            ++ (Some <$> ((λ u, Download_init u None None) <$> new))) as ->.
  { by rewrite add_urls_spec, <-list_fmap_compose. }
  rewrite (known_urls_of_app _ known_urls) by done.
  cbn [mbind result_bind]. rewrite add_urls_spec.
  assert (url <$> ((λ u, Download_init u None None) <$> new) = new) as ->.
  { rewrite <-list_fmap_compose. rewrite <-(list_fmap_id new) at 2.
    apply list_fmap_ext. intros i u Hu%list_elem_of_lookup_2.
    apply list_elem_of_filter in Hu as [_ Hu].
    change (url (Download_init u None None) = u).
    pose proof (get_formula_source_urls_spec formula u Hu)
      as (_ & _ & _ & _ & ->).
    apply lstrip_slash_id.
    by apply (proj1 (Forall_forall _ _) Hurls). }
  assert (filter (.∉ known_urls ++ new) urls = []) as ->.
  { apply filter_none. intros u Hu Hnew. apply Hnew.
    destruct (decide (u ∈ known_urls)); [by apply elem_of_app; left|].
    apply elem_of_app; right. by apply list_elem_of_filter. }
  by rewrite app_nil_r.
Qed.

Lemma add_formula_source_download_urls_rescan_witness :
  add_formula_source_download_urls example_package_scanned example_formula
    = Ok example_package_scanned.
Proof.
  apply (add_formula_source_download_urls_rescan example_package).
  - reflexivity.
  - vm_compute. repeat constructor.
Defined.

(** ** More on the dependency walk *)

Section walk_facts.
Context (binary_packages : gmap string BinaryPackage) (ignore_deps : list string).

Lemma get_unique_dependents_Ok_inv depth root resolved :
  get_unique_dependents depth binary_packages ignore_deps root = Ok resolved →
  ∃ all,
    get_all_dependents depth binary_packages ignore_deps root = Ok all
    ∧ resolved = first_by_name all.
Proof.
  unfold get_unique_dependents. intros (all & Hall & [= <-])%bind_Ok.
  exists all. by rewrite unique_by_name_first.
Qed.

(** A walk that returns has returned below every package it met. *)
Lemma get_all_dependents_Ok_rtc depth p q :
  is_Ok (get_all_dependents depth binary_packages ignore_deps p) →
  rtc (dep_edge binary_packages ignore_deps) p q →
  ∃ depth', is_Ok (get_all_dependents depth' binary_packages ignore_deps q).
Proof.
  intros Hok Hrtc. revert depth Hok.
  induction Hrtc as [p|p p' q Hedge _ IH]; intros depth Hok; [by exists depth|].
  destruct (get_all_dependents_Ok_edge _ _ _ _ _ Hok Hedge)
    as (depth' & _ & Hok').
  by eapply IH.
Qed.

Lemma walk_depends_Ok_lookup recur deps all dep_name dep_req :
  walk_depends recur binary_packages ignore_deps deps = Ok all →
  (dep_name, dep_req) ∈ deps → dep_name ∉ ignore_deps →
  is_Ok (lookup_dep binary_packages dep_name).
Proof.
  revert all. induction deps as [|[dn dr] rest IH]; intros all; simpl.
  { by intros _ ?%elem_of_nil. }
  intros Hwalk [[= <- <-]|Hin]%elem_of_cons Hign.
  - rewrite bool_decide_false in Hwalk by done.
    destruct (lookup_dep binary_packages dep_name) as [q|]; [by eexists|done].
  - case_bool_decide; [by eapply IH|].
    apply bind_Ok in Hwalk as (q & _ & Hwalk).
    apply bind_Ok in Hwalk as (below & _ & Hwalk).
    apply bind_Ok in Hwalk as (others & Hothers & _). by eapply IH.
Qed.

(** X10: whenever the resolution returns a list, no two packages of the
    list have the same name, the root is not in the list, and every package
    of the list is a package of the index that the root reaches through
    non-ignored dependencies. *)
Theorem get_unique_dependents_list depth root resolved :
  get_unique_dependents depth binary_packages ignore_deps root = Ok resolved →
  NoDup (name <$> resolved)
  ∧ (root ∉ resolved)
  ∧ ∀ q, q ∈ resolved →
      in_index binary_packages q
      ∧ reachable binary_packages ignore_deps root q.
Proof.
  intros (all & Hall & ->)%get_unique_dependents_Ok_inv.
  assert (∀ q, q ∈ first_by_name all →
               reachable binary_packages ignore_deps root q) as Hreach.
  { intros q Hq%first_by_name_elem.
    by apply (get_all_dependents_elem _ _ _ _ _ _ Hall). }
  split; [apply first_by_name_NoDup|]. split.
  - intros Hroot%Hreach.
    apply (get_all_dependents_cycle binary_packages ignore_deps depth root root);
      [done|done|by eexists].
  - intros q Hq%Hreach. split; [by eapply reachable_in_index|done].
Qed.

(** X11: whenever the resolution returns a list, no cycle can be reached
    from the root and every non-ignored dependency name met from the root on
    resolves: a reachable cycle or a reachable unknown dependency makes the
    resolution raise at every recursion bound. *)
Theorem get_unique_dependents_Ok_graph depth root resolved :
  get_unique_dependents depth binary_packages ignore_deps root = Ok resolved →
  ¬ cyclic_from binary_packages ignore_deps root
  ∧ closed_from binary_packages ignore_deps root.
Proof.
  intros (all & Hall & ->)%get_unique_dependents_Ok_inv. split.
  - intros (q & Hrtc & Hcycle).
    apply (get_all_dependents_cycle _ _ depth _ _ Hrtc Hcycle). by eexists.
  - intros p dn dr Hrtc Hin Hign.
    destruct (get_all_dependents_Ok_rtc depth root p) as (depth' & all' & Hp);
      [by eexists|done|].
    rewrite get_all_dependents_unfold in Hp.
    by eapply walk_depends_Ok_lookup.
Qed.

(** X12: when every dependency of the root is ignored the resolution returns
    the empty list, at every recursion bound and whatever the index holds:
    an ignored name is never looked up. *)
Theorem get_unique_dependents_all_ignored depth root :
  Forall (λ dep, dep.1 ∈ ignore_deps) (depends root) →
  get_unique_dependents depth binary_packages ignore_deps root = Ok [].
Proof.
  intros Hignored. unfold get_unique_dependents.
  rewrite get_all_dependents_unfold.
  assert (∀ recur, walk_depends recur binary_packages ignore_deps (depends root)
                   = Ok []) as ->; [|done].
  intros recur. induction Hignored as [|[dn dr] rest Hdn _ IH]; [done|].
  simpl. by rewrite bool_decide_true.
Qed.

End walk_facts.

Lemma get_unique_dependents_list_witness :
  example_node "A" ["B"]
    ∉ default [] (match get_unique_dependents 3 example_index []
                          (example_node "A" ["B"]) with
                  | Ok resolved => Some resolved
                  | Err _ => None
                  end).
Proof.
  destruct (get_unique_dependents 3 example_index [] (example_node "A" ["B"]))
    as [resolved|e] eqn:Hresolved; [|apply not_elem_of_nil].
  exact (proj1 (proj2 (get_unique_dependents_list _ _ _ _ _ Hresolved))).
Defined.

Lemma get_unique_dependents_Ok_graph_witness :
  closed_from example_index ["C"] (example_node "A" ["B"]).
Proof.
  destruct (get_unique_dependents 3 example_index ["C"] (example_node "A" ["B"]))
    as [resolved|e] eqn:Hresolved.
  - exact (proj2 (get_unique_dependents_Ok_graph _ _ _ _ _ Hresolved)).
  - vm_compute in Hresolved. discriminate Hresolved.
Defined.

Lemma get_unique_dependents_all_ignored_witness :
  get_unique_dependents 0 ∅ ["B"; "C"] (example_node "A" ["B"; "C@2"; "B"])
    = Ok [].
Proof.
  apply get_unique_dependents_all_ignored. vm_compute. repeat constructor.
Defined.

(** ** Version hints *)

Section hints.
Context (binary_packages : gmap string BinaryPackage) (ignore_deps : list string).

Lemma lookup_dep_erase_hints dep_name :
  lookup_dep (erase_hints <$> binary_packages) dep_name
    = erase_hints <$> lookup_dep binary_packages dep_name.
Proof.
  unfold lookup_dep. rewrite !lookup_fmap.
  destruct (binary_packages !! dep_name); [done|].
  by destruct (binary_packages !! (dep_name +:+ "-git")).
Qed.

Lemma walk_depends_erase_hints
    (recur recur' : BinaryPackage → result (list BinaryPackage)) deps :
  (∀ q, recur' (erase_hints q)
        = (λ l : list BinaryPackage, erase_hints <$> l) <$> recur q) →
  walk_depends recur' (erase_hints <$> binary_packages) ignore_deps
    ((λ dep : string * string, (dep.1, "")) <$> deps)
  = (λ l : list BinaryPackage, erase_hints <$> l)
      <$> walk_depends recur binary_packages ignore_deps deps.
Proof.
  intros Hrecur. induction deps as [|[dn dr] rest IH]; [done|].
  cbn [fmap list_fmap walk_depends fst]. case_bool_decide; [done|].
  rewrite lookup_dep_erase_hints.
  destruct (lookup_dep binary_packages dn) as [q|]; [|done].
  cbn [fmap result_fmap mbind result_bind]. rewrite Hrecur.
  destruct (recur q) as [below|]; [|done].
  cbn [fmap result_fmap mbind result_bind].
  fold (fmap (M := list) (λ dep : string * string, (dep.1, "")) rest).
  rewrite IH.
  destruct (walk_depends recur binary_packages ignore_deps rest)
    as [others|]; [|done].
  cbn [fmap result_fmap mbind result_bind list_fmap].
  by rewrite fmap_app.
Qed.

Lemma get_all_dependents_erase_hints depth root :
  get_all_dependents depth (erase_hints <$> binary_packages) ignore_deps
    (erase_hints root)
  = (λ l : list BinaryPackage, erase_hints <$> l)
      <$> get_all_dependents depth binary_packages ignore_deps root.
Proof.
  revert root. induction depth as [|depth IH]; intros root;
    rewrite !get_all_dependents_unfold; cbn [depends erase_hints];
    by apply walk_depends_erase_hints.
Qed.

Lemma unique_by_name_erase_hints all unique :
  unique_by_name (erase_hints <$> all) (prod_map id erase_hints <$> unique)
  = prod_map id erase_hints <$> unique_by_name all unique.
Proof.
  revert unique. induction all as [|p all IH]; intros unique; [done|].
  cbn [fmap list_fmap unique_by_name].
  assert ((prod_map id erase_hints <$> unique).*1 = unique.*1) as ->.
  { rewrite <-list_fmap_compose. by apply list_fmap_ext; intros ? []. }
  change (name (erase_hints p)) with (name p).
  case_bool_decide; [apply IH|].
  rewrite <-(IH (unique ++ [(name p, p)])). by rewrite fmap_app.
Qed.

(** X13: the version hints of the dependencies play no part in the
    resolution: on the index and the root without their hints the resolution
    gives the same outcome, with the same packages without their hints in
    the same order. *)
Theorem get_unique_dependents_erase_hints depth root :
  get_unique_dependents depth (erase_hints <$> binary_packages) ignore_deps
    (erase_hints root)
  = (λ l : list BinaryPackage, erase_hints <$> l)
      <$> get_unique_dependents depth binary_packages ignore_deps root.
Proof.
  unfold get_unique_dependents. rewrite get_all_dependents_erase_hints.
  destruct (get_all_dependents depth binary_packages ignore_deps root)
    as [all|]; [|done].
  cbn [fmap result_fmap mbind result_bind]. f_equal.
  change (@nil (string * BinaryPackage))
    with (prod_map id erase_hints <$> @nil (string * BinaryPackage)) at 1.
  rewrite (unique_by_name_erase_hints all []), <-!list_fmap_compose.
  by apply list_fmap_ext; intros ? [].
Qed.

End hints.

(** ** Rewriting a load-command path twice *)

Lemma contains_append_slash a seg : Py.contains "/" (a +:+ "/" +:+ seg) = true.
Proof.
  induction a as [|c a IH]; [done|].
  rewrite append_cons. cbn [Py.contains]. rewrite IH. apply orb_true_r.
Qed.

Lemma last_segment_append a seg :
  Py.contains "/" seg = false → last_segment (a +:+ "/" +:+ seg) = seg.
Proof.
  intros Hseg. induction a as [|c a IH].
  - rewrite append_nil_l. change ("/" +:+ seg) with (String "/" seg).
    cbn [last_segment]. by rewrite Hseg, decide_True.
  - rewrite append_cons. cbn [last_segment].
    by rewrite contains_append_slash.
Qed.

(** X14: rewriting a load-command path is idempotent: a path that was
    rewritten is left as it is by a second rewriting.  A rewritten path is
    the path itself or [@loader_path/] followed by a name without
    separator. *)
Theorem patchmacho_path_idempotent p :
  patchmacho_path (patchmacho_path p) = patchmacho_path p
  ∧ (patchmacho_path p = p
     ∨ ∃ dylib_name,
         patchmacho_path p = "@loader_path/" +:+ dylib_name
         ∧ Py.contains "/" dylib_name = false).
Proof.
  assert (∀ q, patchmacho_path q =
               if Py.contains HOMEBREW_PREFIX q
               then "@loader_path/" +:+ last_segment q else q) as Hspec.
  { intros q. unfold patchmacho_path, rewrite_load_command,
      get_updated_loader_path.
    destruct (Py.contains HOMEBREW_PREFIX q); [|done].
    simpl. by rewrite rpartition_slash_last_segment. }
  rewrite (Hspec p). destruct (Py.contains HOMEBREW_PREFIX p) eqn:Hp.
  - split.
    + rewrite Hspec.
      assert (last_segment ("@loader_path/" +:+ last_segment p)
              = last_segment p) as ->.
      { change ("@loader_path/" +:+ last_segment p)
          with ("@loader_path" +:+ "/" +:+ last_segment p).
        apply last_segment_append, last_segment_no_slash. }
      by destruct (Py.contains HOMEBREW_PREFIX
                     ("@loader_path/" +:+ last_segment p)).
    + right. exists (last_segment p). split; [done|].
      apply last_segment_no_slash.
  - split; [|by left]. by rewrite Hspec, Hp.
Qed.

(** ** apply_fixes and pushd *)

Section process_facts.
Context {W : Type} `{!Process W}.

Lemma apply_fixes_app (pre post : list (string * list string)) (w : W) :
  apply_fixes (pre ++ post) w =
    match apply_fixes pre w with
    | (Ok _, w1) => apply_fixes post w1
    | (Err e, w1) => (Err e, w1)
    end.
Proof.
  revert w. induction pre as [|fix0 pre IH]; intros w; [done|].
  cbn [app apply_fixes].
  destruct (apply_fix fix0 w) as [[[]|e] w1]; [apply IH|done].
Qed.

(** X15: the fixes are applied in the order given, each on the state the
    one before left, and the first one that raises ends the run in the state
    it left: no later fix is applied.  A fix whose fixer is neither
    [patchelf] nor [patchmacho] raises [KeyError] without touching the
    state. *)
Theorem apply_fixes_stops pre fix0 post (w w1 : W) :
  apply_fixes pre w = (Ok (), w1) →
  (∀ e w2, apply_fix fix0 w1 = (Err e, w2) →
     apply_fixes (pre ++ fix0 :: post) w = (Err e, w2))
  ∧ (∀ w2, apply_fix fix0 w1 = (Ok (), w2) →
       apply_fixes (pre ++ fix0 :: post) w = apply_fixes post w2)
  ∧ (fix0.1 ≠ "patchelf" → fix0.1 ≠ "patchmacho" →
     apply_fixes (pre ++ fix0 :: post) w = (Err (KeyError fix0.1), w1)).
Proof.
  intros Hpre.
  assert (apply_fixes (pre ++ fix0 :: post) w =
            match apply_fix fix0 w1 with
            | (Ok _, w2) => apply_fixes post w2
            | (Err e, w2) => (Err e, w2)
            end) as ->.
  { by rewrite apply_fixes_app, Hpre. }
  split; [by intros e w2 ->|]. split; [by intros w2 ->|].
  destruct fix0 as [fixer args]. simpl. intros Helf Hmacho.
  by rewrite !bool_decide_false by done.
Qed.

(** X16: [pushd] restores the working directory on every exit path.  As
    long as the directory the process was in can be entered again when the
    block ends, the working directory after the block is the one before it,
    whether the directory of the block could be entered or not and whether
    the body returned or raised; and the outcome of the block is that of
    entering the directory and running the body. *)
Theorem pushd_restores {A} path (body : string → action W A) (w : W) :
  let block :=
    match os_chdir path w with
    | (Ok _, w1) => body (os_getcwd w1) w1
    | (Err e, w1) => (Err e, w1)
    end in
  is_Ok (os_chdir (os_getcwd w) block.2).1 →
  os_getcwd (pushd path body w).2 = os_getcwd w
  ∧ (pushd path body w).1 = block.1.
Proof.
  cbv zeta. unfold pushd.
  destruct (match os_chdir path w with
            | (Ok _, w1) => body (os_getcwd w1) w1
            | (Err e, w1) => (Err e, w1)
            end) as [r w2].
  cbn [fst snd]. intros [[] Hok].
  destruct (os_chdir (os_getcwd w) w2) as [r' w3] eqn:Hchdir.
  simpl in Hok. subst r'. split; [by eapply os_chdir_getcwd|done].
Qed.

End process_facts.

Lemma apply_fixes_stops_witness :
  apply_fixes
    [("patchelf", ["--set-rpath"; "$ORIGIN/."; "lib/libz.so"]);
     ("strip", ["lib/libz.so"]);
     ("patchelf", ["--set-soname"; "libz.so"; "lib/libz.so"])]
    example_process
  = (Err (KeyError "strip"),
     mem_run ["patchelf"; "--set-rpath"; "$ORIGIN/."; "lib/libz.so"]
       example_process)
  ∧ apply_fixes
      [("patchelf", ["--set-rpath"; "$ORIGIN/."; "missing.so"]);
       ("patchmacho", ["lib/libz.dylib"])]
      example_process
    = (Err (Exception "patchelf returned non-zero exit status 1"),
       mem_run ["patchelf"; "--set-rpath"; "$ORIGIN/."; "missing.so"]
         example_process).
Proof.
  assert (apply_fixes
            [("patchelf", ["--set-rpath"; "$ORIGIN/."; "lib/libz.so"])]
            example_process
          = (Ok (),
             mem_run ["patchelf"; "--set-rpath"; "$ORIGIN/."; "lib/libz.so"]
               example_process)) as Hpre by (vm_compute; reflexivity).
  assert (apply_fixes [] example_process = (Ok (), example_process)) as Hnil
    by reflexivity.
  split.
  - apply (proj2 (proj2 (apply_fixes_stops _ ("strip", ["lib/libz.so"]) _
                           _ _ Hpre))); discriminate.
  - apply (proj1 (apply_fixes_stops []
                    ("patchelf",
                     ["--set-rpath"; "$ORIGIN/."; "missing.so"])
                    _ _ _ Hnil)).
    vm_compute. reflexivity.
Defined.

(** The patch phase of [update_package] on a fix that fails: the working
    directory is the one before the phase. *)
Lemma pushd_restores_witness :
  os_getcwd
    (pushd "/work/install"
       (λ _, apply_fixes
               [("patchelf", ["--set-rpath"; "$ORIGIN/."; "missing.so"])])
       example_process).2
  = "/work"
  ∧ (pushd "/work/install"
       (λ _, apply_fixes
               [("patchelf", ["--set-rpath"; "$ORIGIN/."; "missing.so"])])
       example_process).1
    = Err (Exception "patchelf returned non-zero exit status 1").
Proof.
  refine (pushd_restores "/work/install" _ example_process _).
  by eexists.
Defined.

(** ** Download.from_index without a commit-ish *)

Lemma rstrip_slash_id s : Py.endswith "/" s = false → Py.rstrip "/" s = s.
Proof.
  unfold Py.endswith, Py.rstrip. change (String.rev "/") with "/".
  intros Hs. by rewrite lstrip_slash_id, rev_involutive.
Qed.

Lemma strip_slash_idempotent s : Py.strip "/" (Py.strip "/" s) = Py.strip "/" s.
Proof.
  unfold Py.strip at 1.
  rewrite lstrip_slash_id by apply strip_slash_startswith.
  apply rstrip_slash_id, strip_slash_endswith.
Qed.

(** X17: for a record with neither tag nor revision (absent or empty),
    [from_index] is the plain constructor: it returns the download that
    [Download(url, sha256=sha256)] builds, for every URL. *)
Theorem from_index_plain url0 tag revision sha :
  Py.truthy tag = false → Py.truthy revision = false →
  Download_from_index url0 tag revision sha
    = Ok (Some (Download_init url0 None sha)).
Proof.
  intros Htag Hrevision. unfold Download_from_index.
  rewrite Htag, Hrevision. cbn [negb andb]. do 2 f_equal.
  unfold Download_init. rewrite strip_slash_idempotent.
  by destruct (bool_decide _).
Qed.

Lemma from_index_plain_witness :
  Download_from_index "https://example.org/dl/xz-5.2.5.tar.gz/" (Some "") None
    (Some "0123")
  = Ok (Some (Download_init "https://example.org/dl/xz-5.2.5.tar.gz/" None
                (Some "0123"))).
Proof. apply from_index_plain; reflexivity. Defined.

(** ** install_files on a tree without the sources of the plan *)

Section installer_facts.
Context {FS : Type} `{!FileSystem FS}.

(** X18: when none of the sources of the plan exists under the extraction
    directory, also for the default plan that replaces an absent or empty
    one, [install_files] returns without raising and leaves the file system
    as it is. *)
Theorem install_files_nothing_to_copy extracted_dir install_dir package_name
    package_fullversion copies (fs : FS) :
  (∀ src dst,
     (src, dst) ∈ (match copies with
                   | None | Some [] => default_copies
                   | Some c => c
                   end) →
     os_path_exists fs (os_path.join extracted_dir src) = false) →
  install_files extracted_dir install_dir package_name package_fullversion
    copies fs = Ok fs.
Proof.
  unfold install_files.
  generalize (match copies with
              | None | Some [] => default_copies
              | Some c => c
              end).
  intros plan Hmissing. induction plan as [|[src dst] plan IH]; [done|].
  cbn [install_pairs]. unfold install_pair at 1.
  rewrite (Hmissing src dst) by (by left).
  cbn [mbind result_bind]. apply IH. intros src' dst' Hin.
  apply (Hmissing src' dst'). by right.
Qed.

(** ** Validating a plan in parts *)

Lemma check_pair_appends (fs : FS) install_dir entry :
  ∃ found, ∀ missing,
    check_pair fs install_dir entry missing = Ok (missing ++ found).
Proof.
  destruct entry as [src dst]. unfold check_pair.
  destruct (Py.endswith "/" src), (Py.endswith "/" dst); simpl;
    repeat (first [destruct (os_path_exists fs _) | case_bool_decide]; simpl);
    first [by eexists [_] | exists []; intros; by rewrite app_nil_r].
Qed.

Lemma check_pairs_appends (fs : FS) install_dir copies :
  ∃ found, ∀ missing,
    check_pairs fs install_dir copies missing = Ok (missing ++ found).
Proof.
  induction copies as [|entry copies [found IH]].
  { exists []. intros. by rewrite app_nil_r. }
  destruct (check_pair_appends fs install_dir entry) as [found1 Hentry].
  exists (found1 ++ found). intros missing. cbn [check_pairs].
  rewrite Hentry. cbn [mbind result_bind]. by rewrite IH, app_assoc.
Qed.

Lemma check_pairs_app (fs : FS) install_dir copies1 copies2 missing :
  check_pairs fs install_dir (copies1 ++ copies2) missing =
    check_pairs fs install_dir copies1 missing
      ≫= check_pairs fs install_dir copies2.
Proof.
  revert missing. induction copies1 as [|entry copies1 IH]; intros missing;
    [done|].
  cbn [app check_pairs].
  destruct (check_pair fs install_dir entry missing) as [missing1|]; [|done].
  apply IH.
Qed.

(** X19: a plan made of two parts passes the validation exactly when each
    part passes it, whatever the shapes of its entries. *)
Theorem check_installed_files_app (fs : FS) install_dir copies1 copies2 package :
  check_installed_files fs install_dir (copies1 ++ copies2) package = Ok ()
  ↔ check_installed_files fs install_dir copies1 package = Ok ()
    ∧ check_installed_files fs install_dir copies2 package = Ok ().
Proof.
  destruct (check_pairs_appends fs install_dir copies1) as [found1 H1].
  destruct (check_pairs_appends fs install_dir copies2) as [found2 H2].
  assert (check_pairs fs install_dir (copies1 ++ copies2) []
          = Ok (found1 ++ found2)) as H12.
  { rewrite check_pairs_app, (H1 []). cbn [mbind result_bind app].
    by rewrite H2. }
  unfold check_installed_files. rewrite H12, (H1 []), (H2 []).
  cbn [mbind result_bind app].
  destruct found1 as [|path1 found1], found2 as [|path2 found2]; simpl;
    split; try done; by intros [? ?].
Qed.

End installer_facts.

Lemma install_files_nothing_to_copy_witness :
  install_files "ext" "inst" "xz" "5.2.5" None
    {| mem_files := ["ext/xz/5.2.5/lib/liblzma.so"]; mem_dirs := [] |}
  = Ok {| mem_files := ["ext/xz/5.2.5/lib/liblzma.so"]; mem_dirs := [] |}.
Proof.
  apply install_files_nothing_to_copy. intros src dst Hin.
  repeat (apply elem_of_cons in Hin as [[= -> ->]|Hin]; [reflexivity|]).
  by apply elem_of_nil in Hin.
Defined.

(** ** An index without a package *)

Lemma index_items_none repo items packages0 :
  Forall (λ item, is_Err (BinaryPackage_from_index item repo)) items →
  index_items repo items packages0 = packages0.
Proof.
  induction 1 as [|item items [e He] _ IH]; [done|]. simpl. by rewrite He.
Qed.

(** X20: an index in which no record parses, the empty index among them,
    leaves the mapping empty, and an empty mapping is not a cached one: the
    next call fetches the index again. *)
Theorem update_packages_index_empty_refetch self cache_dir cache_dir' w items :
  packages self = ∅ →
  served w (db_url self) = Some items →
  Forall (λ item, is_Err (BinaryPackage_from_index item self)) items →
  let '(r1, self1, w1) := update_packages_index self cache_dir w in
  let '(r2, self2, w2) := update_packages_index self1 cache_dir' w1 in
  r1 = Ok ∅ ∧ r2 = Ok ∅
  ∧ packages self2 = ∅
  ∧ fc_url <$> fetched w2 = (fc_url <$> fetched w) ++ [db_url self; db_url self].
Proof.
  intros Hempty Hserved Hitems.
  destruct self as [repo_name0 db_url0 formula_base_url0 packages0].
  cbn [packages db_url] in Hempty, Hserved |- *. subst packages0.
  set (self := {| repo_name := repo_name0; db_url := db_url0;
                  formula_base_url := formula_base_url0; packages := ∅ |})
    in *.
  assert (∀ cache_dir0 (w0 : World),
            served w0 db_url0 = Some items →
            update_packages_index self cache_dir0 w0
            = (Ok ∅, self,
               {| served := served w0;
                  fetched := fetched w0 ++
                    [ {| fc_url := db_url0; fc_dir_location := cache_dir0;
                         fc_file_name := "formula-" +:+ repo_name0 +:+ ".json";
                         fc_force := true |} ] |})) as Hcall.
  { intros cache_dir0 w0 Hserved0. unfold update_packages_index, fetch_index.
    rewrite bool_decide_false by (by intros []).
    cbn [fc_url db_url self]. rewrite Hserved0.
    change (set_packages self ∅) with self.
    rewrite index_items_none by done. reflexivity. }
  rewrite (Hcall cache_dir w Hserved).
  rewrite (Hcall cache_dir') by done.
  cbn [fetched packages self].
  repeat (split; [done|]). by rewrite !fmap_app, <-app_assoc.
Qed.

Lemma update_packages_index_empty_refetch_witness :
  let '(r1, self1, w1) :=
    update_packages_index example_repository "cache" empty_world in
  let '(r2, self2, w2) := update_packages_index self1 "elsewhere" w1 in
  r1 = Ok ∅ ∧ r2 = Ok ∅
  ∧ packages self2 = ∅
  ∧ fc_url <$> fetched w2
    = (fc_url <$> fetched empty_world)
      ++ [db_url example_repository; db_url example_repository].
Proof.
  exact (update_packages_index_empty_refetch example_repository "cache"
           "elsewhere" empty_world [] eq_refl eq_refl ltac:(constructor)).
Defined.
